(** * EhSyringe background update coordinator ([src/background/update.ts])

    A shallow embedding of the class [Update]: the two observable
    singletons ([lastCheckData], [downloadStatus]), the re-entrancy flag
    [loadLock], the methods [checkVersion], [download], [getTagDataEvent]
    and the three message listeners, run on a single-threaded event loop.

    Every asynchronous method is cut at its suspension points (the [await]s
    on collaborators and the XMLHttpRequest callbacks).  The code between two
    suspension points is one function on the shared fields; a task records
    where it is suspended.  Continuations of promises that are already
    settled (micro-tasks) run in the same turn as the code that settled
    them. *)

From stdpp Require Import base list strings.
From Stdlib Require Import ZArith NArith QArith Qround Qpower Lqa Lia DecimalString Sorted.
From Stdlib Require Import SpecFloat.

Close Scope Q_scope.
Local Open Scope Z_scope.

(** ** JavaScript numbers

    [Math.floor((event.loaded / event.total) * 100)] is evaluated on IEEE-754
    binary64 numbers.  A finite nonnegative double is represented by the
    rational it denotes; [round] is round-to-nearest, ties-to-even, with a
    53-bit significand.  The operands here are byte counts ([unsigned long
    long]), so every intermediate result lies in the normal range of
    binary64 and the exponent range is left out. *)

Module Float64.

(** [ilog2 x] is the exponent of the binade of [x > 0]:
    [2 ^ ilog2 x <= x < 2 ^ (ilog2 x + 1)]. *)
Definition ilog2 (x : Q) : Z :=
  let d := Z.log2 (Qnum x) - Z.log2 (Zpos (Qden x)) in
  if Qle_bool (2 ^ d) x then d else d - 1.

(** Nearest integer, ties to even. *)
Definition rint (x : Q) : Z :=
  let f := Qfloor x in
  match Qcompare (x - inject_Z f) (1 # 2) with
  | Lt => f
  | Gt => f + 1
  | Eq => if Z.even f then f else f + 1
  end.

(** Nearest double of a rational: the significand is the nearest integer
    to [x / 2 ^ e] with [e] chosen so that it has 53 bits. *)
Definition round (x : Q) : Q :=
  if Qle_bool x 0 then 0%Q
  else let e := ilog2 x - 52 in (inject_Z (rint (x / 2 ^ e)) * 2 ^ e)%Q.

Definition of_N (n : N) : Q := round (inject_Z (Z.of_N n)).
Definition div (x y : Q) : Q := round (x / y).
Definition mul (x y : Q) : Q := round (x * y).

End Float64.

(** The numbers that reach [DownloadStatus.progress]: integers, and the
    two non-finite results of a division by a zero [total]. *)
Inductive JsNum : Type :=
| Int (z : Z)
| NaN
| Infinity.

(** Decimal digits of an integer. *)
Definition decimal (z : Z) : string := NilZero.string_of_int (Z.to_int z).

Definition digit_count (z : Z) : Z := Z.of_nat (String.length (decimal z)).

(** The decimal [v] denotes the double [x] when it rounds to it. *)
Definition reads_back (v x : Z) : bool :=
  Qeq_bool (Float64.round (inject_Z v)) (inject_Z x).

(** [Number::toString] prints a number with the fewest significant digits
    that read back as the same double; of several such the nearest, of two
    equally near the even one.  For the integer [x] the numbers of digits
    are tried in turn, from [k] on; the candidates with that many digits are
    the multiples of the power of ten just below and just above [x]; with
    all its digits [x] stands for itself. *)
Fixpoint shortest_from (fuel : nat) (k : Z) (x : Z) : Z :=
  match fuel with
  | O => x
  | S fuel' =>
      let e := digit_count x - k in
      if e <=? 0 then x
      else
        let p := 10 ^ e in
        let lo := x / p * p in
        let hi := lo + p in
        match reads_back lo x, reads_back hi x with
        | true, true =>
            if x - lo <? hi - x then lo
            else if hi - x <? x - lo then hi
            else if Z.even (x / p) then lo else hi
        | true, false => lo
        | false, true => hi
        | false, false => shortest_from fuel' (k + 1) x
        end
  end.

Definition shortest (x : Z) : Z :=
  shortest_from (Z.to_nat (digit_count x)) 1 x.

Fixpoint strip_zeros (fuel : nat) (v : Z) : Z :=
  match fuel with
  | O => v
  | S fuel' =>
      if (v mod 10 =? 0) && negb (v =? 0) then strip_zeros fuel' (v / 10) else v
  end.

(** The form [d.ddde+n] that [Number::toString] takes from 1e21 on. *)
Definition exponential (v : Z) : string :=
  let n := digit_count v in
  match decimal (strip_zeros (Z.to_nat n) v) with
  | String c EmptyString => String c ("e+" +:+ decimal (n - 1))
  | String c rest => String c ("." +:+ rest +:+ "e+" +:+ decimal (n - 1))
  | EmptyString => EmptyString
  end.

Definition toString_nonneg (x : Z) : string :=
  let v := shortest x in
  if digit_count v <=? 21 then decimal v else exponential v.

(** [Number::toString]: what [percent + '%'] prints of [percent]. *)
Definition number_to_string (n : JsNum) : string :=
  match n with
  | Int z => if z <? 0 then "-" +:+ toString_nonneg (- z) else toString_nonneg z
  | NaN => "NaN"
  | Infinity => "Infinity"
  end.

(** [Number.prototype.toFixed(0)]: all the digits of an integer below 1e21,
    and from there on what [Number::toString] prints. *)
Definition number_toFixed0 (n : JsNum) : string :=
  match n with
  | Int z =>
      if z <? 0 then "-" +:+ (if - z <? 10 ^ 21 then decimal (- z)
                              else toString_nonneg (- z))
      else if z <? 10 ^ 21 then decimal z else toString_nonneg z
  | NaN => "NaN"
  | Infinity => "Infinity"
  end.

(** Line 157: [Math.floor((event.loaded / event.total) * 100)]. *)
Definition percent (loaded total : N) : JsNum :=
  if (total =? 0)%N then (if (loaded =? 0)%N then NaN else Infinity)
  else Int (Qfloor (Float64.mul
                      (Float64.div (Float64.of_N loaded) (Float64.of_N total))
                      (Float64.of_N 100))).

(** The same expression on the standard library's bit-level model of
    binary64 ([SpecFloat], precision 53, [emax] 1024), kept as a reference
    to test [percent] against. *)
Definition sf_of_N (n : N) : spec_float :=
  binary_normalize 53 1024 (Z.of_N n) 0 false.

Definition sf_floor (x : spec_float) : JsNum :=
  match x with
  | S754_zero _ => Int 0
  | S754_finite false m e =>
      Int (if 0 <=? e then Zpos m * 2 ^ e else Z.shiftr (Zpos m) (- e))
  | S754_finite true m e =>
      Int (if 0 <=? e then - (Zpos m * 2 ^ e) else Z.shiftr (Zneg m) (- e))
  | S754_infinity _ => Infinity
  | S754_nan => NaN
  end.

Definition sf_percent (loaded total : N) : JsNum :=
  sf_floor (SFmul 53 1024 (SFdiv 53 1024 (sf_of_N loaded) (sf_of_N total))
              (sf_of_N 100)).

Definition JsNum_eqb (a b : JsNum) : bool :=
  match a, b with
  | Int x, Int y => x =? y
  | NaN, NaN => true
  | Infinity, Infinity => true
  | _, _ => false
  end.

(** JavaScript truthiness of a string, and of a field that may be absent. *)
Definition truthy (s : string) : bool := negb (String.eqb s "").

Definition truthy_opt (o : option string) : bool :=
  match o with
  | Some s => truthy s
  | None => false
  end.

(** ** Data model *)

(** [DownloadStatus] ([../interface]); the flag is named [run]. *)
Record DownloadStatus : Type := {
  run : bool;
  progress : JsNum;
  info : string;
  complete : bool;
  error : bool;
}.

(** [Partial<DownloadStatus>]. *)
Record PartialStatus : Type := {
  p_run : option bool;
  p_progress : option JsNum;
  p_info : option string;
  p_complete : option bool;
  p_error : option bool;
}.

(** Lines 12-18. *)
Definition defaultStatus : DownloadStatus :=
  {| run := false; progress := Int 0; info := ""; complete := false; error := false |}.

(** An entry of the release's [assets] array. *)
Record Asset : Type := {
  name : string;
  browser_download_url : option string;
}.

(** The JSON document of the latest release, as far as the code reads it. *)
Record Release : Type := {
  target_commitish : option string;
  html_url : string;
  assets : option (list Asset);
}.

(** [ReleaseCheckData] ([../interface]). *)
Record ReleaseCheckData : Type := {
  old : string;
  oldLink : string;
  new : string;
  newLink : string;
  timestamp : Z;
  githubRelease : option Release;
}.

Definition ArrayBuffer : Type := list Byte.byte.

(** Values that are thrown or that a promise is rejected with. *)
Inductive Thrown : Type :=
| Error (message : string)          (* [new Error(message)] *)
| TypeError (message : string)      (* raised by the engine *)
| Rejection (message : option string).
    (* the reason a collaborator rejects with, or the event of [xhr.onerror] *)

Definition message_of (e : Thrown) : option string :=
  match e with
  | Error m => Some m
  | TypeError m => Some m
  | Rejection m => m
  end.

(** The three errors [download] creates (lines 122, 130, 144), under the
    names the specification gives them. *)
Definition VersionInfoUnavailable : Thrown := Error "无法获取版本信息".
Definition AssetUrlMissing : Thrown := Error "无法获取下载地址".
Definition DataParseFailed : Thrown := Error "数据无法解析".

Definition null_property_access : Thrown :=
  TypeError "Cannot read property 'new' of null".

Definition githubDownloadUrl : string :=
  "https://api.github.com/repos/ehtagtranslation/Database/releases/latest".

Definition bundle_name : string := "db.html.json.gz".

(** What the coordinator does to its collaborators, in program order. *)
Inductive Effect : Type :=
| Broadcast (v : DownloadStatus)   (* line 44: [chromeMessage.broadcast('downloadStatus', v)] *)
| BadgeSet (text color : string) (priority : option Z)
| StorageGet                       (* line 94 *)
| Fetch (url : string)             (* line 96 *)
| XhrSend (url : string)           (* lines 135-162 *)
| DbUpdate (db : ArrayBuffer) (link : string)   (* line 52 *)
| LogError (e : Thrown).           (* line 67 *)

(** The fields of the [Update] instance, with the trace of its effects. *)
Record Shared : Type := {
  loadLock : bool;
  lastCheckData : ReleaseCheckData;
  downloadStatus : DownloadStatus;
  effects : list Effect;
}.

Definition set_loadLock (b : bool) (sh : Shared) : Shared :=
  {| loadLock := b; lastCheckData := lastCheckData sh;
     downloadStatus := downloadStatus sh; effects := effects sh |}.

Definition emit (e : Effect) (sh : Shared) : Shared :=
  {| loadLock := loadLock sh; lastCheckData := lastCheckData sh;
     downloadStatus := downloadStatus sh; effects := effects sh ++ [e] |}.

(** [this.lastCheckData.next(d)]; nothing in this file subscribes to it. *)
Definition lastCheckData_next (d : ReleaseCheckData) (sh : Shared) : Shared :=
  {| loadLock := loadLock sh; lastCheckData := d;
     downloadStatus := downloadStatus sh; effects := effects sh |}.

(** [this.downloadStatus.next(v)]: the value is stored and the subscriber
    of line 44 broadcasts it. *)
Definition downloadStatus_next (v : DownloadStatus) (sh : Shared) : Shared :=
  {| loadLock := loadLock sh; lastCheckData := lastCheckData sh;
     downloadStatus := v; effects := effects sh ++ [Broadcast v] |}.

Definition badgeLoading_set (text color : string) (priority : option Z)
    (sh : Shared) : Shared :=
  emit (BadgeSet text color priority) sh.

(** Lines 72-74. *)
Definition initDownloadStatus (sh : Shared) : Shared :=
  downloadStatus_next defaultStatus sh.

(** [{...v, ...data}]. *)
Definition merge (v : DownloadStatus) (data : PartialStatus) : DownloadStatus :=
  {| run := default (run v) (p_run data);
     progress := default (progress v) (p_progress data);
     info := default (info v) (p_info data);
     complete := default (complete v) (p_complete data);
     error := default (error v) (p_error data) |}.

(** Lines 76-81. *)
Definition pushDownloadStatus (data : PartialStatus) (sh : Shared) : Shared :=
  downloadStatus_next (merge (downloadStatus sh) data) sh.

(** ** [checkVersion] (lines 83-110) *)

(** Lines 88-89, with [time] the clock reading of line 86. *)
Definition rate_limited (time : Z) (d : ReleaseCheckData) : bool :=
  (time - timestamp d <=? 1000 * 60) && bool_decide (is_Some (githubRelease d)).

Inductive CheckStart : Type :=
| Cached (d : ReleaseCheckData)   (* line 90: returned without any request *)
| MustFetch.                      (* falls through to line 94 *)

(** Lines 84-92. *)
Definition checkVersion_start (force : bool) (time : Z) (sh : Shared) : CheckStart :=
  if negb force && rate_limited time (lastCheckData sh)
  then Cached (lastCheckData sh)
  else MustFetch.

(** Line 98: [info && info.target_commitish]. *)
Definition has_version (info : option Release) : bool :=
  match info with
  | Some i => truthy_opt (target_commitish i)
  | None => false
  end.

(** Lines 98-109, once storage has answered [sha], [releaseLink] and the
    request has answered [info]; [time] is the clock reading of line 107.
    The result [None] is the [null] of line 99. *)
Definition checkVersion_fetched (sha releaseLink : string) (info : option Release)
    (time : Z) (sh : Shared) : Shared * option ReleaseCheckData :=
  match info with
  | Some i =>
      if truthy_opt (target_commitish i) then
        let d := {| old := sha; oldLink := releaseLink;
                    new := default "" (target_commitish i);
                    newLink := html_url i;
                    timestamp := time;
                    githubRelease := Some i |} in
        (lastCheckData_next d sh, Some d)
      else (sh, None)
  | None => (sh, None)
  end.

(** ** [download] (lines 112-166) *)

(** Lines 114-119: the guard.  [None] is the [return false] of line 115:
    the executor is left with neither [resolve] nor [reject] called, and
    nothing else holds them. *)
Definition download_acquire (sh : Shared) : option Shared :=
  if loadLock sh then None
  else Some (pushDownloadStatus
               {| p_run := Some true; p_progress := None; p_info := Some "加载中";
                  p_complete := None; p_error := None |}
               (badgeLoading_set "" "#4A90E2" (Some 2) (set_loadLock true sh))).

(** Line 127: [info.assets.find(i => i.name === 'db.html.json.gz')]. *)
Definition find_asset (l : list Asset) : option Asset :=
  List.find (fun i => String.eqb (name i) bundle_name) l.

(** Line 128: [asset && asset.browser_download_url || '']. *)
Definition asset_url (asset : option Asset) : string :=
  match asset with
  | Some a => if truthy_opt (browser_download_url a)
              then default "" (browser_download_url a) else ""
  | None => ""
  end.

(** Lines 135-164: the request is sent and the first status published. *)
Definition start_transfer (url : string) (sh : Shared) : Shared :=
  badgeLoading_set "0" "#4A90E2" (Some 1)
    (pushDownloadStatus
       {| p_run := None; p_progress := Some (Int 0); p_info := Some "0%";
          p_complete := None; p_error := None |}
       (emit (XhrSend url) sh)).

(** Lines 121-164, entered with the result of [await this.checkVersion()].
    On the left the promise is rejected; on the right the transfer of
    [info]'s bundle has been started and the promise is still pending. *)
Definition download_continue (checkData : option ReleaseCheckData) (sh : Shared)
    : Shared * (Thrown + Release) :=
  match checkData with
  | Some {| githubRelease := Some ({| assets := Some l |} as info) |} =>
      let url := asset_url (find_asset l) in
      if negb (truthy url) then
        (set_loadLock false sh, inl AssetUrlMissing)
      else
        (start_transfer url sh, inr info)
  | _ => (set_loadLock false sh, inl VersionInfoUnavailable)
  end.

(** Lines 138-149, [xhr.onload]; the promise is resolved with
    [{release: info, db: xhr.response}].  [resolve], [BehaviorSubject.next]
    and [badgeLoading.set] do not throw, so the [catch] arm is not entered
    (and its [reject] would come after [resolve], without effect). *)
Definition xhr_onload (sh : Shared) : Shared :=
  set_loadLock false
    (badgeLoading_set "100" "#4A90E2" (Some 1)
       (pushDownloadStatus
          {| p_run := None; p_progress := Some (Int 100); p_info := Some "下载完成";
             p_complete := None; p_error := None |} sh)).

(** Lines 150-154, [xhr.onerror]; the promise is rejected with the event. *)
Definition xhr_onerror (sh : Shared) : Shared :=
  badgeLoading_set "ERR" "#C80000" None (set_loadLock false sh).

(** Lines 155-161, [xhr.onprogress]. *)
Definition xhr_onprogress (lengthComputable : bool) (loaded total : N)
    (sh : Shared) : Shared :=
  if lengthComputable then
    let p := percent loaded total in
    badgeLoading_set (number_toFixed0 p) "#4A90E2" (Some 1)
      (pushDownloadStatus
         {| p_run := None; p_progress := Some p;
            p_info := Some (number_to_string p +:+ "%");
            p_complete := None; p_error := None |} sh)
  else sh.

(** ** Tasks *)

Inductive Value : Type :=
| VUndefined
| VBool (b : bool)
| VCheck (d : option ReleaseCheckData).   (* [None] is [null] *)

Inductive Outcome : Type :=
| Returned (v : Value)
| Threw (e : Thrown).

(** Who awaits [getTagDataEvent]: the listener of line 34 or that of line 39. *)
Inductive Origin : Type :=
| FromGetTagData
| FromAutoUpdate.

(** The two suspension points of [checkVersion]: line 94 and line 96. *)
Inductive CheckWait : Type :=
| AwaitStorage
| AwaitFetch (sha releaseLink : string).

(** Where a task is suspended. *)
Inductive Pc : Type :=
| PcCheck (w : CheckWait)
    (* listener of line 35, inside [checkVersion] *)
| PcAutoCheck (w : CheckWait)
    (* listener of line 36, at line 37 *)
| PcDownloadCheck (o : Origin) (w : CheckWait)
    (* [getTagDataEvent] at line 51, [download] at line 120 *)
| PcTransfer (o : Origin) (info : Release)
    (* line 51, the request of lines 135-162 in flight *)
| PcAbandoned (o : Origin)
    (* line 51, awaiting a promise whose executor has ended without calling
       [resolve] or [reject] and has left no callback that could *)
| PcDbUpdate (o : Origin)
    (* line 52 *)
| PcSleep (o : Origin) (since : Z)
    (* line 61, [sleep(2500)] started at time [since] *)
| PcDone (r : Outcome).

(** The value the listener hands back once [getTagDataEvent] has returned:
    nothing at line 34, [true] at line 40. *)
Definition finish (o : Origin) : Pc :=
  match o with
  | FromGetTagData => PcDone (Returned VUndefined)
  | FromAutoUpdate => PcDone (Returned (VBool true))
  end.

(** ** [getTagDataEvent] (lines 47-70) *)

(** Line 68: [(err && err.message) ? err.message : '更新失败']. *)
Definition failure_info (err : Thrown) : string :=
  if truthy_opt (message_of err) then default "" (message_of err) else "更新失败".

(** Lines 66-69. *)
Definition getTagDataEvent_catch (o : Origin) (err : Thrown) (sh : Shared)
    : Shared * Pc :=
  (pushDownloadStatus
     {| p_run := Some false; p_progress := None; p_info := Some (failure_info err);
        p_complete := None; p_error := Some true |}
     (emit (LogError err) sh),
   finish o).

(** Line 51 resumed with the result of [checkVersion] inside [download]. *)
Definition getTagDataEvent_checked (o : Origin) (checkData : option ReleaseCheckData)
    (sh : Shared) : Shared * Pc :=
  match download_continue checkData sh with
  | (sh', inl err) => getTagDataEvent_catch o err sh'
  | (sh', inr info) => (sh', PcTransfer o info)
  end.

(** Lines 49-51 up to the first suspension. *)
Definition getTagDataEvent_start (o : Origin) (time : Z) (sh : Shared)
    : Shared * Pc :=
  let sh1 := initDownloadStatus sh in
  match download_acquire sh1 with
  | None => (sh1, PcAbandoned o)
  | Some sh2 =>
      match checkVersion_start false time sh2 with
      | Cached d => getTagDataEvent_checked o (Some d) sh2
      | MustFetch => (emit StorageGet sh2, PcDownloadCheck o AwaitStorage)
      end
  end.

(** Line 52, entered when [download] has resolved. *)
Definition getTagDataEvent_downloaded (o : Origin) (release : Release)
    (db : ArrayBuffer) (sh : Shared) : Shared * Pc :=
  (emit (DbUpdate db (html_url release)) sh, PcDbUpdate o).

(** Lines 54-61, entered when [tagDatabase.update] has resolved; [sha] and
    [releaseLink] are the values [tagDatabase] then holds. *)
Definition getTagDataEvent_updated (o : Origin) (sha releaseLink : string)
    (time : Z) (sh : Shared) : Shared * Pc :=
  let sh1 := badgeLoading_set "OK" "#00C801" None sh in
  let sh2 := pushDownloadStatus
               {| p_run := Some true; p_progress := Some (Int 100);
                  p_info := Some "更新完成"; p_complete := Some true;
                  p_error := None |} sh1 in
  let d := lastCheckData sh2 in
  (lastCheckData_next
     {| old := sha; oldLink := releaseLink; new := new d; newLink := newLink d;
        timestamp := timestamp d; githubRelease := githubRelease d |} sh2,
   PcSleep o time).

(** Line 62 tests [this.downloadStatus.complete].  [downloadStatus] is the
    [BehaviorSubject], not its value: the member read is the subject's
    method [complete()], a function object, which is truthy in every
    state. *)
Definition downloadStatus_complete_member (sh : Shared) : bool := true.

(** Lines 62-65. *)
Definition getTagDataEvent_woken (o : Origin) (sh : Shared) : Shared * Pc :=
  if downloadStatus_complete_member sh
  then (initDownloadStatus (badgeLoading_set "" "#4A90E2" None sh), finish o)
  else (sh, finish o).

(** ** The listener of [auto-update] (lines 36-43) *)

(** Lines 38-42, with [version] the result of [checkVersion(true)]. *)
Definition autoUpdate_checked (version : option ReleaseCheckData) (time : Z)
    (sh : Shared) : Shared * Pc :=
  match version with
  | None => (sh, PcDone (Threw null_property_access))
  | Some v =>
      if truthy (new v) && negb (String.eqb (new v) (old v))
      then getTagDataEvent_start FromAutoUpdate time sh
      else (sh, PcDone (Returned (VBool false)))
  end.

(** ** The event loop *)

(** What wakes a suspended task. *)
Inductive Signal : Type :=
| StorageDone (r : Thrown + string * string)
    (* [browser.storage.local.get] settles; [sha] and [releaseLink], a key
       that is not stored read as the empty string *)
| FetchDone (r : Thrown + option Release)
    (* [(await fetch(url)).json()] settles; [None] is a falsy document *)
| XhrProgress (lengthComputable : bool) (loaded total : N)
| XhrLoad (response : ArrayBuffer)
| XhrError
| DbDone (r : Thrown + string * string)
    (* [tagDatabase.update] settles; on success the [sha] and
       [releaseLink] it now holds *)
| TimerFired.

Inductive Event : Type :=
| MsgGetTagData
| MsgCheckVersion (force : bool)
| MsgAutoUpdate
| Wake (tid : nat) (s : Signal).

(** [checkVersion] resumed at line 94 or 96.  On the left it throws, in the
    middle it is suspended again, on the right it returns. *)
Inductive CheckStep : Type :=
| CheckThrew (e : Thrown)
| CheckWaits (sh : Shared) (w : CheckWait)
| CheckReturned (sh : Shared) (d : option ReleaseCheckData).

Definition checkVersion_resume (time : Z) (s : Signal) (w : CheckWait)
    (sh : Shared) : option CheckStep :=
  match w, s with
  | AwaitStorage, StorageDone (inl e) => Some (CheckThrew e)
  | AwaitStorage, StorageDone (inr (sha, releaseLink)) =>
      Some (CheckWaits (emit (Fetch githubDownloadUrl) sh) (AwaitFetch sha releaseLink))
  | AwaitFetch _ _, FetchDone (inl e) => Some (CheckThrew e)
  | AwaitFetch sha releaseLink, FetchDone (inr info) =>
      let (sh', d) := checkVersion_fetched sha releaseLink info time sh in
      Some (CheckReturned sh' d)
  | _, _ => None
  end.

(** One turn of a suspended task on the signal it waits for; [None] when
    the signal is not one the task can receive where it is. *)
Definition resume (time : Z) (s : Signal) (pc : Pc) (sh : Shared)
    : option (Shared * Pc) :=
  match pc with
  | PcCheck w =>
      match checkVersion_resume time s w sh with
      | Some (CheckThrew e) => Some (sh, PcDone (Threw e))
      | Some (CheckWaits sh' w') => Some (sh', PcCheck w')
      | Some (CheckReturned sh' d) => Some (sh', PcDone (Returned (VCheck d)))
      | None => None
      end
  | PcAutoCheck w =>
      match checkVersion_resume time s w sh with
      | Some (CheckThrew e) => Some (sh, PcDone (Threw e))
      | Some (CheckWaits sh' w') => Some (sh', PcAutoCheck w')
      | Some (CheckReturned sh' d) => Some (autoUpdate_checked d time sh')
      | None => None
      end
  | PcDownloadCheck o w =>
      match checkVersion_resume time s w sh with
      | Some (CheckThrew e) =>
          (* the async executor of line 113 rejects its own promise, which
             nobody observes; the promise of [download] stays pending *)
          Some (sh, PcAbandoned o)
      | Some (CheckWaits sh' w') => Some (sh', PcDownloadCheck o w')
      | Some (CheckReturned sh' d) => Some (getTagDataEvent_checked o d sh')
      | None => None
      end
  | PcTransfer o info =>
      match s with
      | XhrProgress lc loaded total =>
          Some (xhr_onprogress lc loaded total sh, PcTransfer o info)
      | XhrLoad response =>
          Some (getTagDataEvent_downloaded o info response (xhr_onload sh))
      | XhrError =>
          Some (getTagDataEvent_catch o (Rejection None) (xhr_onerror sh))
      | _ => None
      end
  | PcAbandoned _ => None
  | PcDbUpdate o =>
      match s with
      | DbDone (inl e) => Some (getTagDataEvent_catch o e sh)
      | DbDone (inr (sha, releaseLink)) =>
          Some (getTagDataEvent_updated o sha releaseLink time sh)
      | _ => None
      end
  | PcSleep o since =>
      match s with
      | TimerFired =>
          if since + 2500 <=? time then Some (getTagDataEvent_woken o sh) else None
      | _ => None
      end
  | PcDone _ => None
  end.

Record State : Type := {
  shared : Shared;
  tasks : list Pc;
}.

(** A listener is called: the new task runs to its first suspension. *)
Definition spawn (time : Z) (ev : Event) (sh : Shared) : option (Shared * Pc) :=
  match ev with
  | MsgGetTagData => Some (getTagDataEvent_start FromGetTagData time sh)
  | MsgCheckVersion force =>
      match checkVersion_start force time sh with
      | Cached d => Some (sh, PcDone (Returned (VCheck (Some d))))
      | MustFetch => Some (emit StorageGet sh, PcCheck AwaitStorage)
      end
  | MsgAutoUpdate =>
      (* [checkVersion(true)] never takes the branch of line 84 *)
      match checkVersion_start true time sh with
      | Cached d => Some (autoUpdate_checked (Some d) time sh)
      | MustFetch => Some (emit StorageGet sh, PcAutoCheck AwaitStorage)
      end
  | Wake _ _ => None
  end.

(** One turn of the event loop at clock reading [time]. *)
Definition step (time : Z) (ev : Event) (st : State) : State :=
  match ev with
  | Wake tid s =>
      match tasks st !! tid with
      | Some pc =>
          match resume time s pc (shared st) with
          | Some (sh', pc') => {| shared := sh'; tasks := <[tid := pc']> (tasks st) |}
          | None => st
          end
      | None => st
      end
  | _ =>
      match spawn time ev (shared st) with
      | Some (sh', pc') => {| shared := sh'; tasks := tasks st ++ [pc'] |}
      | None => st
      end
  end.

Definition exec (evs : list (Z * Event)) (st : State) : State :=
  fold_left (fun s te => step (fst te) (snd te) s) evs st.

(** Lines 21-31 and 44: the fields as constructed; subscribing to a
    [BehaviorSubject] delivers its current value at once. *)
Definition initial : State :=
  {| shared :=
       {| loadLock := false;
          lastCheckData := {| old := ""; oldLink := ""; new := ""; newLink := "";
                              timestamp := 0; githubRelease := None |};
          downloadStatus := defaultStatus;
          effects := [Broadcast defaultStatus] |};
     tasks := [] |}.

(** ** Observations used in the statements *)

(** The progress values broadcast in a stretch of the trace. *)
Definition published_progress (es : list Effect) : list JsNum :=
  omap (fun e => match e with Broadcast v => Some (progress v) | _ => None end) es.

(** What [sh'] has added to the trace of [sh]. *)
Definition effects_since (sh sh' : Shared) : list Effect :=
  drop (length (effects sh)) (effects sh').

Definition is_percentage (n : JsNum) : Prop :=
  match n with
  | Int z => 0 <= z <= 100
  | _ => False
  end.

Definition num_le (a b : JsNum) : Prop :=
  match a, b with
  | Int x, Int y => x <= y
  | _, _ => False
  end.

(** The progress events of one request, each with [lengthComputable] and
    [loaded], all for the same [total], followed by its load event. *)
Definition transfer (total : N) (ps : list (bool * N)) (sh : Shared) : Shared :=
  xhr_onload (fold_left (fun s p => xhr_onprogress (fst p) (snd p) total s) ps sh).

(** A task holds the guard while it is inside [download] with a live
    continuation or callback. *)
Definition holder (pc : Pc) : bool :=
  match pc with
  | PcDownloadCheck _ _ | PcTransfer _ _ => true
  | _ => false
  end.

(** The guard is held and no task is in a position to release it. *)
Definition guard_leaked (st : State) : Prop :=
  loadLock (shared st) = true
  /\ Forall (fun pc => holder pc = false) (tasks st).

(** A task belongs to an update operation ([get-tag-data] or
    [auto-update]) that is still running: it has not returned, and it has
    not been left for dead at line 51. *)
Definition active (pc : Pc) : bool :=
  match pc with
  | PcCheck _ | PcDone _ | PcAbandoned _ => false
  | _ => true
  end.

(** A task that [download] has left for dead: nothing can wake it. *)
Definition abandoned (pc : Pc) : bool :=
  match pc with
  | PcAbandoned _ => true
  | _ => false
  end.

Definition busy (st : State) : bool := existsb active (tasks st).

Definition hung (st : State) : bool := existsb abandoned (tasks st).

Definition starts_operation (ev : Event) : bool :=
  match ev with
  | MsgGetTagData | MsgAutoUpdate => true
  | _ => false
  end.

(** Update operations do not overlap: each is requested only when none is
    running.  [check-version] requests are free to arrive at any time. *)
Fixpoint sequential (evs : list (Z * Event)) (st : State) : bool :=
  match evs with
  | [] => true
  | (time, ev) :: rest =>
      (negb (starts_operation ev) || negb (busy st))
      && sequential rest (step time ev st)
  end.

(** The status between operations: idle, or what the last failure left. *)
Definition quiet (s : DownloadStatus) : Prop :=
  s = defaultStatus \/ (run s = false /\ complete s = false /\ error s = true).

(** The status while no operation is running: [quiet], or, once a task has
    been left for dead ([h]), what that task had published, which has
    neither [complete] nor [error]. *)
Definition resting (h : bool) (s : DownloadStatus) : Prop :=
  quiet s \/ (h = true /\ complete s = false /\ error s = false).

(** The status an operation has published by the time it is suspended. *)
Definition shape (h : bool) (pc : Pc) (s : DownloadStatus) : Prop :=
  match pc with
  | PcAutoCheck _ => resting h s
  | PcDownloadCheck _ _ | PcTransfer _ _ | PcDbUpdate _ =>
      run s = true /\ complete s = false /\ error s = false
  | PcSleep _ _ =>
      run s = true /\ complete s = true /\ error s = false /\ progress s = Int 100
  | PcCheck _ | PcDone _ | PcAbandoned _ => True
  end.

(** What a turn leaves behind for the task [pc] that took it. *)
Definition settled (h : bool) (pc : Pc) (s : DownloadStatus) : Prop :=
  if active pc then shape h pc s else resting (h || abandoned pc) s.

Definition status_inv (st : State) : Prop :=
  (List.filter active (tasks st) = []
   /\ resting (hung st) (downloadStatus (shared st)))
  \/ (exists pc, List.filter active (tasks st) = [pc]
                 /\ shape (hung st) pc (downloadStatus (shared st))).

(** What every published status satisfies when operations do not overlap. *)
Definition well_formed (s : DownloadStatus) : Prop :=
  complete s && error s = false
  /\ (error s = true -> run s = false)
  /\ (complete s = true -> run s = true /\ progress s = Int 100).

Definition effect_ok (e : Effect) : Prop :=
  match e with
  | Broadcast v => well_formed v
  | _ => True
  end.

Definition effects_ok (sh : Shared) : Prop := Forall effect_ok (effects sh).

(** ** Scenarios *)

Definition release_v2 : Release :=
  {| target_commitish := Some "v2";
     html_url := "https://x/releases/v2";
     assets := Some [ {| name := "db.html.json.gz";
                         browser_download_url := Some "https://x/db.gz" |} ] |}.

(** The body GitHub answers with when the rate limit is exceeded: a JSON
    object without [target_commitish]. *)
Definition release_without_version : Release :=
  {| target_commitish := None; html_url := ""; assets := None |}.

(** One update that succeeds, up to the publication of line 55. *)
Definition successful_update : list (Z * Event) :=
  [ (1000, MsgGetTagData);
    (1001, Wake 0 (StorageDone (inr ("v1", "https://x/releases/v1"))));
    (1002, Wake 0 (FetchDone (inr (Some release_v2))));
    (1003, Wake 0 (XhrProgress true 50 100));
    (1004, Wake 0 (XhrLoad []));
    (1005, Wake 0 (DbDone (inr ("v2", "https://x/releases/v2")))) ].

(** One update whose transfer fails. *)
Definition failed_update : list (Z * Event) :=
  [ (1000, MsgGetTagData);
    (1001, Wake 0 (StorageDone (inr ("v1", "https://x/releases/v1"))));
    (1002, Wake 0 (FetchDone (inr (Some release_v2))));
    (1003, Wake 0 XhrError) ].

(** A second update requested during the grace period of the first. *)
Definition update_during_grace : list (Z * Event) :=
  successful_update ++ [ (2000, MsgGetTagData) ].

(** A second update requested while the first is writing the database;
    the second transfer then fails. *)
Definition overlapping_updates : list (Z * Event) :=
  [ (1000, MsgGetTagData);
    (1001, Wake 0 (StorageDone (inr ("v1", "https://x/releases/v1"))));
    (1002, Wake 0 (FetchDone (inr (Some release_v2))));
    (1004, Wake 0 (XhrLoad []));
    (1500, MsgGetTagData);
    (1600, Wake 0 (DbDone (inr ("v2", "https://x/releases/v2"))));
    (1700, Wake 1 XhrError) ].

(** A second update requested while the first transfer is half way. *)
Definition request_during_transfer : list (Z * Event) :=
  [ (1000, MsgGetTagData);
    (1001, Wake 0 (StorageDone (inr ("v1", "https://x/releases/v1"))));
    (1002, Wake 0 (FetchDone (inr (Some release_v2))));
    (1003, Wake 0 (XhrProgress true 50 100));
    (1004, MsgGetTagData) ].

(** Two requests for an update in a row. *)
Definition contended : State :=
  exec [ (1000, MsgGetTagData); (1000, MsgGetTagData) ] initial.

(** An update whose version check fails in the network. *)
Definition check_failed : State :=
  exec [ (1000, MsgGetTagData);
         (1001, Wake 0 (StorageDone (inr ("v1", "https://x/releases/v1"))));
         (1002, Wake 0 (FetchDone (inl (TypeError "Failed to fetch")))) ] initial.

(** The same update as a run: the operation is left hanging at line 51. *)
Definition hanging_update : list (Z * Event) :=
  [ (1000, MsgGetTagData);
    (1001, Wake 0 (StorageDone (inr ("v1", "https://x/releases/v1"))));
    (1002, Wake 0 (FetchDone (inl (TypeError "Failed to fetch")))) ].

(** A further update requested after that one. *)
Definition update_after_hang : list (Z * Event) :=
  hanging_update ++ [ (2000, MsgGetTagData) ].

(** An automatic update whose forced check is answered without a version. *)
Definition auto_update_without_version : list (Z * Event) :=
  [ (1000, MsgAutoUpdate);
    (1001, Wake 0 (StorageDone (inr ("v1", "https://x/releases/v1"))));
    (1002, Wake 0 (FetchDone (inr (Some release_without_version)))) ].

(** An automatic update that finds a newer version while an update
    requested before it is still inside [download]. *)
Definition auto_update_contended : list (Z * Event) :=
  [ (1000, MsgGetTagData);
    (1001, MsgAutoUpdate);
    (1002, Wake 1 (StorageDone (inr ("v1", "https://x/releases/v1"))));
    (1003, Wake 1 (FetchDone (inr (Some release_v2)))) ].

(** A forced check answered without a version. *)
Definition check_without_version : list (Z * Event) :=
  [ (1000, MsgCheckVersion true);
    (1001, Wake 0 (StorageDone (inr ("v1", "https://x/releases/v1"))));
    (1002, Wake 0 (FetchDone (inr (Some release_without_version)))) ].

(** A progress event that reports more bytes than the announced total. *)
Definition overshooting_progress : list (Z * Event) :=
  [ (1000, MsgGetTagData);
    (1001, Wake 0 (StorageDone (inr ("v1", "https://x/releases/v1"))));
    (1002, Wake 0 (FetchDone (inr (Some release_v2))));
    (1003, Wake 0 (XhrProgress true 200 100)) ].

(** ** Further observations *)

(** The URLs of the transfers started in a stretch of the trace. *)
Definition xhr_sends (es : list Effect) : list string :=
  omap (fun e => match e with XhrSend u => Some u | _ => None end) es.

(** The only addresses the coordinator may ask: the fixed release feed, and
    for the bundle a URL that is not empty. *)
Definition effect_safe (e : Effect) : Prop :=
  match e with
  | Fetch u => u = githubDownloadUrl
  | XhrSend u => truthy u = true
  | _ => True
  end.

(** [new], [newLink] and the cached release of [lastCheckData] belong
    together. *)
Definition check_consistent (d : ReleaseCheckData) : Prop :=
  match githubRelease d with
  | Some i => target_commitish i = Some (new d)
              /\ truthy (new d) = true
              /\ newLink d = html_url i
  | None => new d = "" /\ newLink d = "" /\ timestamp d = 0
  end.

(** While the guard is free no task holds it, and never two do. *)
Definition guard_inv (st : State) : Prop :=
  (loadLock (shared st) = false -> List.filter holder (tasks st) = [])
  /\ (length (List.filter holder (tasks st)) <= 1)%nat.

(** The two ways one turn can change [lastCheckData]: the answer [s] of
    the feed carries a version (lines 101-108), or the database has been
    updated (lines 56-60). *)
Definition check_data_step (time : Z) (s : option Signal)
    (d d' : ReleaseCheckData) : Prop :=
  d' = d
  \/ (exists i sha releaseLink,
        s = Some (FetchDone (inr (Some i)))
        /\ truthy_opt (target_commitish i) = true
        /\ d' = {| old := sha; oldLink := releaseLink;
                   new := default "" (target_commitish i);
                   newLink := html_url i; timestamp := time;
                   githubRelease := Some i |})
  \/ (exists sha releaseLink,
        s = Some (DbDone (inr (sha, releaseLink)))
        /\ d' = {| old := sha; oldLink := releaseLink; new := new d;
                   newLink := newLink d; timestamp := timestamp d;
                   githubRelease := githubRelease d |}).

Definition signal_of (ev : Event) : option Signal :=
  match ev with
  | Wake _ s => Some s
  | _ => None
  end.

(** The listener on whose behalf a task runs [getTagDataEvent]. *)
Definition origin_of (pc : Pc) : option Origin :=
  match pc with
  | PcDownloadCheck o _ | PcTransfer o _ | PcAbandoned o
  | PcDbUpdate o | PcSleep o _ => Some o
  | _ => None
  end.

(** A whole update from the request to the publication of line 55, for the
    task that the request creates in [st]. *)
Definition update_run (st : State) (t0 t1 t2 t3 t4 : Z)
    (sha releaseLink : string) (info : Release) (response : ArrayBuffer)
    (sha' releaseLink' : string) : list (Z * Event) :=
  let tid := length (tasks st) in
  [ (t0, MsgGetTagData);
    (t1, Wake tid (StorageDone (inr (sha, releaseLink))));
    (t2, Wake tid (FetchDone (inr (Some info))));
    (t3, Wake tid (XhrLoad response));
    (t4, Wake tid (DbDone (inr (sha', releaseLink')))) ].

(** A forced check from the request to the answer of the feed. *)
Definition forced_check_run (st : State) (t0 t1 t2 : Z)
    (sha releaseLink : string) (info : option Release) : list (Z * Event) :=
  let tid := length (tasks st) in
  [ (t0, MsgCheckVersion true);
    (t1, Wake tid (StorageDone (inr (sha, releaseLink))));
    (t2, Wake tid (FetchDone (inr info))) ].

(** * Properties *)

(** ** Rounding to binary64 *)

Section Float64_facts.
Import Float64.
Local Open Scope Q_scope.

Lemma pow2_pos (e : Z) : 0 < 2 ^ e.
Proof. apply Qpower_0_lt. reflexivity. Qed.

Lemma pow2_succ (e : Z) : 2 ^ (e + 1) == 2 * 2 ^ e.
Proof. rewrite Qpower_plus by discriminate. change (2 ^ 1) with 2. ring. Qed.

Lemma pow2_log2 (n : Z) :
  (0 < n)%Z -> 2 ^ Z.log2 n <= inject_Z n /\ inject_Z n < 2 * 2 ^ Z.log2 n.
Proof.
  intros Hn. destruct (Z.log2_spec n Hn) as [Hl Hu].
  pose proof (Z.log2_nonneg n) as H0.
  rewrite <- pow2_succ.
  change 2 with (inject_Z 2).
  rewrite <- !Zpower_Qpower by lia.
  rewrite <- Zle_Qle, <- Zlt_Qlt. split; [lia | exact Hu].
Qed.

Lemma ilog2_spec (x : Q) :
  0 < x -> 2 ^ ilog2 x <= x /\ x < 2 ^ (ilog2 x + 1).
Proof.
  intros Hx. unfold ilog2.
  destruct x as [p q]. cbn [Qnum Qden].
  assert (Hp : (0 < p)%Z) by (unfold Qlt in Hx; cbn in Hx; lia).
  destruct (pow2_log2 p Hp) as [Hpl Hpu].
  destruct (pow2_log2 (Zpos q) eq_refl) as [Hql Hqu].
  set (lp := Z.log2 p) in *. set (lq := Z.log2 (Zpos q)) in *.
  pose proof (pow2_pos lp) as HA. pose proof (pow2_pos lq) as HB.
  assert (Hd : 2 ^ (lp - lq) * 2 ^ lq == 2 ^ lp).
  { rewrite <- Qpower_plus by discriminate.
    now replace (lp - lq + lq)%Z with lp by ring. }
  assert (Hxq : (p # q) * inject_Z (Zpos q) == inject_Z p).
  { rewrite (Qmake_Qdiv p q). field. discriminate. }
  pose proof (pow2_pos (lp - lq)) as HD.
  destruct (Qle_bool (2 ^ (lp - lq)) (p # q)) eqn:E.
  - apply Qle_bool_iff in E. split; [exact E|].
    rewrite pow2_succ. nra.
  - assert (E' : p # q < 2 ^ (lp - lq)).
    { apply Qnot_le_lt. intros H. apply Qle_bool_iff in H. congruence. }
    replace (lp - lq - 1 + 1)%Z with (lp - lq)%Z by ring. split; [|exact E'].
    assert (H2 : 2 * 2 ^ (lp - lq - 1) == 2 ^ (lp - lq)).
    { rewrite <- pow2_succ.
      now replace (lp - lq - 1 + 1)%Z with (lp - lq)%Z by ring. }
    pose proof (pow2_pos (lp - lq - 1)). nra.
Qed.

Lemma rint_mono (x y : Q) : x <= y -> (rint x <= rint y)%Z.
Proof.
  intros Hxy. unfold rint.
  pose proof (Qfloor_resp_le x y Hxy) as Hf.
  pose proof (Qfloor_le x) as Hx1. pose proof (Qlt_floor x) as Hx2.
  pose proof (Qfloor_le y) as Hy1. pose proof (Qlt_floor y) as Hy2.
  rewrite inject_Z_plus in Hx2, Hy2.
  destruct (Z.eq_dec (Qfloor x) (Qfloor y)) as [Heq | Hne].
  - rewrite <- Heq in *.
    destruct (Qcompare_spec (x - inject_Z (Qfloor x)) (1 # 2));
      destruct (Qcompare_spec (y - inject_Z (Qfloor x)) (1 # 2));
      destruct (Z.even (Qfloor x)); first [lia | exfalso; lra].
  - assert (Hlt : (Qfloor x + 1 <= Qfloor y)%Z) by lia.
    destruct (Qcompare (x - inject_Z (Qfloor x)) (1 # 2));
      destruct (Qcompare (y - inject_Z (Qfloor y)) (1 # 2));
      destruct (Z.even (Qfloor x)); destruct (Z.even (Qfloor y)); lia.
Qed.

Lemma rint_Z (z : Z) : rint (inject_Z z) = z.
Proof.
  unfold rint. rewrite Qfloor_Z.
  destruct (Qcompare_spec (inject_Z z - inject_Z z) (1 # 2));
    [exfalso; lra | reflexivity | exfalso; lra].
Qed.

Lemma round_nonneg (x : Q) : 0 <= round x.
Proof.
  unfold round. destruct (Qle_bool x 0) eqn:E; [lra|].
  assert (Hx : 0 < x).
  { apply Qnot_le_lt. intros H. apply Qle_bool_iff in H. congruence. }
  set (e := (ilog2 x - 52)%Z). pose proof (pow2_pos e) as He.
  apply Qmult_le_0_compat; [|lra].
  change 0 with (inject_Z 0). rewrite <- Zle_Qle.
  rewrite <- (rint_Z 0). apply rint_mono.
  apply Qle_shift_div_l; [exact He|]. change (inject_Z 0) with 0. lra.
Qed.

Lemma round_pos_unfold (x : Q) :
  0 < x ->
  round x = inject_Z (rint (x / 2 ^ (ilog2 x - 52))) * 2 ^ (ilog2 x - 52).
Proof.
  intros Hx. unfold round. destruct (Qle_bool x 0) eqn:E; [|reflexivity].
  apply Qle_bool_iff in E. lra.
Qed.

(** A rounded value stays inside the closed binade of its argument. *)
Lemma round_upper (x : Q) : 0 < x -> round x <= 2 ^ (ilog2 x + 1).
Proof.
  intros Hx. rewrite (round_pos_unfold x Hx).
  destruct (ilog2_spec x Hx) as [_ Hu].
  set (e := (ilog2 x - 52)%Z) in *. pose proof (pow2_pos e) as He.
  assert (Hs : 2 ^ (ilog2 x + 1) == inject_Z (2 ^ 53) * 2 ^ e).
  { rewrite Zpower_Qpower by lia. rewrite <- Qpower_plus by discriminate.
    subst e. now replace (53 + (ilog2 x - 52))%Z with (ilog2 x + 1)%Z by ring. }
  rewrite Hs. apply Qmult_le_compat_r; [|lra].
  rewrite <- Zle_Qle. rewrite <- (rint_Z (2 ^ 53)). apply rint_mono.
  apply Qle_shift_div_r; [exact He|]. rewrite <- Hs. lra.
Qed.

Lemma round_lower (x : Q) : 0 < x -> 2 ^ ilog2 x <= round x.
Proof.
  intros Hx. rewrite (round_pos_unfold x Hx).
  destruct (ilog2_spec x Hx) as [Hl _].
  set (e := (ilog2 x - 52)%Z) in *. pose proof (pow2_pos e) as He.
  assert (Hs : 2 ^ ilog2 x == inject_Z (2 ^ 52) * 2 ^ e).
  { rewrite Zpower_Qpower by lia. rewrite <- Qpower_plus by discriminate.
    subst e. now replace (52 + (ilog2 x - 52))%Z with (ilog2 x) by ring. }
  rewrite Hs. apply Qmult_le_compat_r; [|lra].
  rewrite <- Zle_Qle. rewrite <- (rint_Z (2 ^ 52)). apply rint_mono.
  apply Qle_shift_div_l; [exact He|]. rewrite <- Hs. exact Hl.
Qed.

(** Rounding to nearest is monotone. *)
Lemma round_mono (x y : Q) : x <= y -> round x <= round y.
Proof.
  intros Hxy.
  destruct (Qlt_le_dec 0 x) as [Hx | Hx].
  - assert (Hy : 0 < y) by lra.
    destruct (ilog2_spec x Hx) as [Hxl Hxu].
    destruct (ilog2_spec y Hy) as [Hyl Hyu].
    assert (Hle : (ilog2 x <= ilog2 y)%Z).
    { assert (H : 2 ^ ilog2 x < 2 ^ (ilog2 y + 1)) by lra.
      apply Qpower_lt_compat_l_inv in H; [lia | reflexivity]. }
    destruct (Z.eq_dec (ilog2 x) (ilog2 y)) as [Heq | Hne].
    + rewrite (round_pos_unfold x Hx), (round_pos_unfold y Hy), Heq.
      pose proof (pow2_pos (ilog2 y - 52)) as He.
      apply Qmult_le_compat_r; [|lra].
      rewrite <- Zle_Qle. apply rint_mono.
      apply Qmult_le_compat_r; [exact Hxy|].
      apply Qlt_le_weak, Qinv_lt_0_compat, He.
    + apply Qle_trans with (2 ^ (ilog2 x + 1)); [apply round_upper, Hx|].
      apply Qle_trans with (2 ^ ilog2 y); [|apply round_lower, Hy].
      apply Qpower_le_compat_l; [lia | discriminate].
  - unfold round at 1.
    assert (E : Qle_bool x 0 = true) by (apply Qle_bool_iff, Hx).
    rewrite E. apply round_nonneg.
Qed.

Lemma round_1 : round 1 == 1.
Proof. vm_compute. reflexivity. Qed.

Lemma round_100 : round 100 == 100.
Proof. vm_compute. reflexivity. Qed.

Lemma of_N_mono (a b : N) : (a <= b)%N -> of_N a <= of_N b.
Proof.
  intros H. unfold of_N. apply round_mono. rewrite <- Zle_Qle. lia.
Qed.

Lemma of_N_pos (t : N) : (0 < t)%N -> 1 <= of_N t.
Proof.
  intros H. rewrite <- round_1. unfold of_N. apply round_mono.
  change 1 with (inject_Z 1). rewrite <- Zle_Qle. lia.
Qed.

(** The quotient of a part by the whole rounds to at most one. *)
Lemma div_le_1 (a t : N) :
  (0 < t)%N -> (a <= t)%N -> div (of_N a) (of_N t) <= 1.
Proof.
  intros Ht Hat. rewrite <- round_1. unfold div. apply round_mono.
  pose proof (of_N_pos t Ht). pose proof (of_N_mono a t Hat).
  apply Qle_shift_div_r; lra.
Qed.

Lemma div_mono (a b t : N) :
  (0 < t)%N -> (a <= b)%N -> div (of_N a) (of_N t) <= div (of_N b) (of_N t).
Proof.
  intros Ht Hab. unfold div. apply round_mono.
  pose proof (of_N_pos t Ht). pose proof (of_N_mono a b Hab).
  apply Qmult_le_compat_r; [assumption|].
  apply Qlt_le_weak, Qinv_lt_0_compat. lra.
Qed.

End Float64_facts.

(** ** The percentage of line 157 *)

Lemma percent_finite (loaded total : N) :
  (0 < total)%N ->
  percent loaded total =
  Int (Qfloor (Float64.mul
                 (Float64.div (Float64.of_N loaded) (Float64.of_N total))
                 (Float64.of_N 100))).
Proof.
  intros H. unfold percent. destruct (N.eqb_spec total 0); [lia | reflexivity].
Qed.

Lemma percent_bounds (loaded total : N) :
  (0 < total)%N -> (loaded <= total)%N -> is_percentage (percent loaded total).
Proof.
  intros Ht Hlt. rewrite (percent_finite _ _ Ht). cbn [is_percentage].
  pose proof (div_le_1 loaded total Ht Hlt) as Hq.
  pose proof (round_nonneg (Float64.of_N loaded / Float64.of_N total)) as Hq0.
  fold (Float64.div (Float64.of_N loaded) (Float64.of_N total)) in Hq0.
  set (q := Float64.div _ _) in *.
  assert (H100 : (Float64.of_N 100 == 100)%Q) by apply round_100.
  split.
  - rewrite <- (Qfloor_Z 0). apply Qfloor_resp_le. apply round_nonneg.
  - rewrite <- (Qfloor_Z 100). apply Qfloor_resp_le.
    apply Qle_trans with (Float64.round 100).
    + unfold Float64.mul. apply round_mono. rewrite H100. lra.
    + rewrite round_100. apply Qle_refl.
Qed.

Lemma percent_mono (a b total : N) :
  (0 < total)%N -> (a <= b)%N -> num_le (percent a total) (percent b total).
Proof.
  intros Ht Hab. rewrite !(percent_finite _ _ Ht). cbn [num_le].
  apply Qfloor_resp_le. unfold Float64.mul. apply round_mono.
  apply Qmult_le_compat_r; [apply div_mono; assumption|].
  apply round_nonneg.
Qed.

(** The rounding of the quotient shows: 29 of 100 bytes is published as 28. *)
Example percent_29_of_100 : percent 29 100 = Int 28.
Proof. vm_compute. reflexivity. Qed.

Example percent_50_of_100 : percent 50 100 = Int 50.
Proof. vm_compute. reflexivity. Qed.

(** [percent] gives what the bit-level model gives: for every byte count
    up to a total of 7, 100 and 1000 bytes, for a zero total, and at the
    ends of the range of [unsigned long long]. *)
Example percent_agrees_with_SpecFloat :
  forallb (fun total =>
             forallb (fun loaded =>
                        JsNum_eqb (percent (N.of_nat loaded) total)
                                  (sf_percent (N.of_nat loaded) total))
                     (seq 0 (S (N.to_nat total))))
          [0; 7; 100; 1000]%N
  && forallb (fun lt => JsNum_eqb (percent (fst lt) (snd lt))
                                  (sf_percent (fst lt) (snd lt)))
       [ (18446744073709551615, 3); (9007199254740993, 18446744073709551615);
         (1, 18446744073709551615); (200, 100); (5, 0);
         (18446744073709551615, 1) ]%N
  = true.
Proof. vm_compute. reflexivity. Qed.

(** ** Basic facts about the operations *)

Lemma truthy_empty : truthy "" = false.
Proof. reflexivity. Qed.

Lemma has_version_false_fetched sha releaseLink info time sh :
  has_version info = false ->
  checkVersion_fetched sha releaseLink info time sh = (sh, None).
Proof.
  unfold has_version, checkVersion_fetched.
  destruct info as [i|]; [|reflexivity].
  intros ->. reflexivity.
Qed.

Lemma has_version_true_fetched sha releaseLink info time sh :
  has_version info = true ->
  exists d, checkVersion_fetched sha releaseLink info time sh
            = (lastCheckData_next d sh, Some d)
            /\ old d = sha /\ oldLink d = releaseLink /\ timestamp d = time
            /\ githubRelease d = info /\ truthy (new d) = true.
Proof.
  unfold has_version, checkVersion_fetched.
  destruct info as [i|]; [|discriminate].
  intros H. rewrite H. eexists. split; [reflexivity|]. cbn.
  repeat split; try reflexivity.
  destruct (target_commitish i); [exact H | discriminate].
Qed.

Lemma find_asset_some (l : list Asset) (a : Asset) :
  find_asset l = Some a -> In a l /\ name a = bundle_name.
Proof.
  intros H. apply List.find_some in H as [Hin Hn].
  split; [exact Hin | now apply String.eqb_eq].
Qed.

Lemma find_asset_none (l : list Asset) :
  find_asset l = None <-> (forall a, In a l -> name a <> bundle_name).
Proof.
  split.
  - intros H a Hin Hn. pose proof (List.find_none _ _ H a Hin) as Hf.
    cbn in Hf. apply String.eqb_neq in Hf. contradiction.
  - intros H. unfold find_asset. induction l as [|b l IH]; [reflexivity|].
    cbn. destruct (String.eqb_spec (name b) bundle_name) as [E|E].
    + exfalso. apply (H b); [now left | exact E].
    + apply IH. intros a Hin. apply H. now right.
Qed.

(** The guard is free again after each way [download] settles. *)
Lemma download_continue_rejected checkData sh sh' err :
  download_continue checkData sh = (sh', inl err) ->
  sh' = set_loadLock false sh
  /\ (err = VersionInfoUnavailable \/ err = AssetUrlMissing).
Proof.
  unfold download_continue.
  destruct checkData as [[? ? ? ? ? [[? ? [l|]]|]]|];
    try (intros [= <- <-]; auto).
  destruct (negb (truthy (asset_url (find_asset l))));
    intros [= <- <-]; auto.
Qed.

Lemma xhr_onload_releases sh : loadLock (xhr_onload sh) = false.
Proof. reflexivity. Qed.

Lemma xhr_onerror_releases sh : loadLock (xhr_onerror sh) = false.
Proof. reflexivity. Qed.

Lemma exec_app evs1 evs2 st : exec (evs1 ++ evs2) st = exec evs2 (exec evs1 st).
Proof. unfold exec. apply fold_left_app. Qed.

Lemma exec_cons time ev evs st :
  exec ((time, ev) :: evs) st = exec evs (step time ev st).
Proof. reflexivity. Qed.

(** ** C4: the rate limit of [checkVersion] *)

(** C4.  A call [checkVersion(false)] made when the time stamp of the last
    check is less than 60,000 ms behind the clock and the cached release
    record is present returns the cached [lastCheckData]; the shared fields
    and the trace of effects are the ones before the call, so neither the
    storage nor the network is asked. *)
Theorem checkVersion_rate_limit (time : Z) (st : State) :
  time - timestamp (lastCheckData (shared st)) < 60000 ->
  is_Some (githubRelease (lastCheckData (shared st))) ->
  checkVersion_start false time (shared st) = Cached (lastCheckData (shared st))
  /\ step time (MsgCheckVersion false) st =
     {| shared := shared st;
        tasks := tasks st
                 ++ [PcDone (Returned (VCheck (Some (lastCheckData (shared st)))))] |}.
Proof.
  intros Ht Hr.
  assert (E : checkVersion_start false time (shared st)
              = Cached (lastCheckData (shared st))).
  { unfold checkVersion_start, rate_limited.
    rewrite bool_decide_eq_true_2 by exact Hr.
    destruct (Z.leb_spec (time - timestamp (lastCheckData (shared st))) (1000 * 60));
      [reflexivity | lia]. }
  split; [exact E|].
  unfold step, spawn. rewrite E. reflexivity.
Qed.

Lemma checkVersion_rate_limit_witness :
  let st := exec [ (1000, MsgCheckVersion true);
                   (1001, Wake 0 (StorageDone (inr ("v1", "l1"))));
                   (1002, Wake 0 (FetchDone (inr (Some release_v2)))) ] initial in
  checkVersion_start false 61001 (shared st) = Cached (lastCheckData (shared st))
  /\ effects (shared (step 61001 (MsgCheckVersion false) st)) = effects (shared st).
Proof.
  intros st.
  destruct (checkVersion_rate_limit 61001 st) as [H1 H2].
  - vm_compute. reflexivity.
  - vm_compute. eexists. reflexivity.
  - split; [exact H1 | rewrite H2; reflexivity].
Defined.

(** ** C5: a release document without a version *)

(** C5, as the code has it.  When the fetched document lacks
    [target_commitish], [checkVersion] does not fail: it returns [null]
    (line 99), and [lastCheckData], with every other shared field and the
    trace, is left as it was.  It is [download] that turns the [null] into
    the failure: given [null] at line 121 it releases the guard and rejects
    with [VersionInfoUnavailable], so that a [download] waiting at line 120
    for such a check ends, in the turn of the answer, in the [catch] arm of
    [getTagDataEvent] with that error: the error is logged, the status
    carries its message with [error] set, the guard is free, and
    [lastCheckData] is still as it was. *)
Theorem checkVersion_without_version_returns_null
    (sha releaseLink : string) (info : option Release) (time : Z) (sh : Shared)
    (o : Origin) :
  has_version info = false ->
  checkVersion_fetched sha releaseLink info time sh = (sh, None)
  /\ resume time (FetchDone (inr info)) (PcCheck (AwaitFetch sha releaseLink)) sh
     = Some (sh, PcDone (Returned (VCheck None)))
  /\ download_continue None sh = (set_loadLock false sh, inl VersionInfoUnavailable)
  /\ exists sh',
       resume time (FetchDone (inr info))
         (PcDownloadCheck o (AwaitFetch sha releaseLink)) sh
       = Some (sh', finish o)
       /\ (sh', finish o)
          = getTagDataEvent_catch o VersionInfoUnavailable (set_loadLock false sh)
       /\ effects sh'
          = effects sh ++ [ LogError VersionInfoUnavailable;
                            Broadcast (downloadStatus sh') ]
       /\ downloadStatus sh'
          = {| run := false; progress := progress (downloadStatus sh);
               info := "无法获取版本信息";
               complete := complete (downloadStatus sh); error := true |}
       /\ loadLock sh' = false
       /\ lastCheckData sh' = lastCheckData sh.
Proof.
  intros H. pose proof (has_version_false_fetched sha releaseLink info time sh H) as E.
  split; [exact E|].
  split; [cbn; rewrite E; reflexivity|].
  split; [reflexivity|].
  eexists. split; [cbn; rewrite E; reflexivity|].
  cbn. rewrite <- app_assoc. repeat split; reflexivity.
Qed.

Lemma checkVersion_without_version_returns_null_witness :
  has_version (Some release_without_version) = false
  /\ checkVersion_fetched "v1" "l1" (Some release_without_version) 1002 (shared initial)
     = (shared initial, None)
  /\ download_continue None (shared initial)
     = (set_loadLock false (shared initial), inl VersionInfoUnavailable).
Proof.
  split; [reflexivity|].
  destruct (checkVersion_without_version_returns_null
              "v1" "l1" (Some release_without_version) 1002 (shared initial)
              FromGetTagData eq_refl) as (H1 & _ & H2 & _).
  split; [exact H1 | exact H2].
Defined.

(** The claim of C5 fails where it says that the call fails: a forced
    check answered without [target_commitish] ends by returning [null], not
    by throwing. *)
Lemma checkVersion_without_version_does_not_fail :
  let st := exec check_without_version initial in
  tasks st !! 0%nat = Some (PcDone (Returned (VCheck None)))
  /\ tasks st !! 0%nat <> Some (PcDone (Threw VersionInfoUnavailable))
  /\ lastCheckData (shared st) = lastCheckData (shared initial).
Proof.
  cbv zeta. split; [reflexivity|]. split; [|reflexivity].
  vm_compute. discriminate.
Qed.

(** ** C8: the bundle among the assets *)

(** C8.  [download] takes the entry of the asset list whose name is
    [db.html.json.gz].  When there is none, or its URL is empty or
    missing, the promise is rejected with the error of line 130, the guard
    is released so that the next call acquires it, and nothing is added to
    the trace: no request is sent.  Otherwise the request for that URL is
    sent. *)
Theorem download_asset_resolution
    (cd : ReleaseCheckData) (info : Release) (l : list Asset) (sh : Shared) :
  githubRelease cd = Some info ->
  assets info = Some l ->
  (forall a, find_asset l = Some a -> In a l /\ name a = bundle_name)
  /\ (find_asset l = None <-> forall a, In a l -> name a <> bundle_name)
  /\ ((find_asset l = None
       \/ exists a, find_asset l = Some a
                    /\ truthy_opt (browser_download_url a) = false) ->
      download_continue (Some cd) sh = (set_loadLock false sh, inl AssetUrlMissing)
      /\ loadLock (fst (download_continue (Some cd) sh)) = false
      /\ effects (fst (download_continue (Some cd) sh)) = effects sh
      /\ is_Some (download_acquire (fst (download_continue (Some cd) sh))))
  /\ (forall a u, find_asset l = Some a -> browser_download_url a = Some u ->
      truthy u = true ->
      download_continue (Some cd) sh = (start_transfer u sh, inr info)
      /\ In (XhrSend u) (effects (start_transfer u sh))).
Proof.
  intros Hr Ha.
  split; [apply find_asset_some|]. split; [apply find_asset_none|].
  destruct cd as [o ol n nl ts r]. cbn in Hr. subst r.
  destruct info as [tc hu asl]. cbn in Ha. subst asl.
  split.
  - intros Hmiss.
    assert (E : asset_url (find_asset l) = "").
    { destruct Hmiss as [-> | (a & -> & Hu)]; [reflexivity|].
      cbn. now rewrite Hu. }
    assert (D : download_continue
                  (Some {| old := o; oldLink := ol; new := n; newLink := nl;
                           timestamp := ts;
                           githubRelease := Some {| target_commitish := tc;
                                                    html_url := hu;
                                                    assets := Some l |} |}) sh
                = (set_loadLock false sh, inl AssetUrlMissing)).
    { cbn. rewrite E. reflexivity. }
    rewrite D. cbn. repeat split. eexists. reflexivity.
  - intros a u Hf Hu Ht. split.
    + cbn. rewrite Hf. cbn. rewrite Hu. cbn. rewrite Ht. cbn. rewrite Ht. reflexivity.
    + cbn. rewrite !in_app_iff. left. left. right. now left.
Qed.

Lemma download_asset_resolution_witness :
  let cd := {| old := "v1"; oldLink := ""; new := "v2"; newLink := "";
               timestamp := 1000;
               githubRelease :=
                 Some {| target_commitish := Some "v2"; html_url := "";
                         assets := Some [ {| name := "db.raw.json.gz";
                                             browser_download_url := Some "https://x/raw" |} ] |} |} in
  download_continue (Some cd) (shared initial)
  = (set_loadLock false (shared initial), inl AssetUrlMissing).
Proof.
  intros cd.
  destruct (download_asset_resolution cd
              {| target_commitish := Some "v2"; html_url := "";
                 assets := Some [ {| name := "db.raw.json.gz";
                                     browser_download_url := Some "https://x/raw" |} ] |}
              [ {| name := "db.raw.json.gz";
                   browser_download_url := Some "https://x/raw" |} ]
              (shared initial) eq_refl eq_refl) as (_ & _ & H & _).
  destruct H as [H _]; [left; reflexivity | exact H].
Defined.

(** ** C10: the listener of [auto-update] on a [null] check *)

(** C10.  The listener of [auto-update] ends in a fault exactly when the
    document fetched by its forced check lacks [target_commitish]: then
    [checkVersion] returns [null] with the shared fields untouched, and the
    access [version.new] of line 38 raises a [TypeError] instead of
    returning [false]. *)
Theorem autoUpdate_faults_iff_check_null
    (time : Z) (sha releaseLink : string) (info : option Release)
    (sh sh' : Shared) (pc' : Pc) :
  resume time (FetchDone (inr info)) (PcAutoCheck (AwaitFetch sha releaseLink)) sh
  = Some (sh', pc') ->
  ((exists e, pc' = PcDone (Threw e)) <-> has_version info = false)
  /\ (has_version info = false ->
      checkVersion_fetched sha releaseLink info time sh = (sh, None)
      /\ sh' = sh /\ pc' = PcDone (Threw null_property_access)).
Proof.
  intros H. cbn in H.
  destruct (has_version info) eqn:Hv.
  - destruct (has_version_true_fetched sha releaseLink info time sh Hv)
      as (d & E & _).
    rewrite E in H. cbn in H.
    split; [|discriminate]. split; [|discriminate].
    intros [e ->].
    destruct (truthy (new d) && negb (String.eqb (new d) (old d)));
      [|discriminate].
    unfold getTagDataEvent_start in H.
    destruct (download_acquire _); [|discriminate].
    destruct (checkVersion_start _ _ _); [|discriminate].
    unfold getTagDataEvent_checked in H.
    destruct (download_continue _ _) as [? [?|?]]; discriminate.
  - rewrite (has_version_false_fetched sha releaseLink info time sh Hv) in H.
    cbn in H. injection H as <- <-.
    split; [split; eauto|].
    intros _. split; [|split; reflexivity].
    apply has_version_false_fetched, Hv.
Qed.

Lemma autoUpdate_faults_iff_check_null_witness :
  resume 1002 (FetchDone (inr (Some release_without_version)))
    (PcAutoCheck (AwaitFetch "v1" "l1")) (shared initial)
  = Some (shared initial, PcDone (Threw null_property_access))
  /\ has_version (Some release_without_version) = false
  /\ checkVersion_fetched "v1" "l1" (Some release_without_version) 1002
       (shared initial) = (shared initial, None).
Proof.
  split; [reflexivity|]. split; [reflexivity|].
  destruct (autoUpdate_faults_iff_check_null 1002 "v1" "l1"
              (Some release_without_version) (shared initial) (shared initial)
              (PcDone (Threw null_property_access)) eq_refl) as [_ H].
  exact (proj1 (H eq_refl)).
Defined.

(** ** Tasks that can no longer be woken *)

Lemma resume_abandoned time s o sh : resume time s (PcAbandoned o) sh = None.
Proof. reflexivity. Qed.

Lemma step_keeps_abandoned time ev st tid o :
  tasks st !! tid = Some (PcAbandoned o) ->
  tasks (step time ev st) !! tid = Some (PcAbandoned o).
Proof.
  intros H.
  assert (Happ : forall pc', (tasks st ++ [pc']) !! tid = Some (PcAbandoned o)).
  { intros pc'. now apply lookup_app_l_Some. }
  destruct ev as [| force | | tid' s]; cbn.
  - destruct (getTagDataEvent_start _ _ _). cbn. apply Happ.
  - destruct (checkVersion_start _ _ _); cbn; apply Happ.
  - cbn. apply Happ.
  - destruct (tasks st !! tid') as [pc|] eqn:Hpc; [|exact H].
    destruct (resume time s pc (shared st)) as [[sh' pc']|] eqn:Hr; [|exact H].
    cbn. destruct (decide (tid' = tid)) as [->|Hne].
    + rewrite H in Hpc. injection Hpc as <-. discriminate.
    + now rewrite list_lookup_insert_ne.
Qed.

Lemma exec_keeps_abandoned evs st tid o :
  tasks st !! tid = Some (PcAbandoned o) ->
  tasks (exec evs st) !! tid = Some (PcAbandoned o).
Proof.
  revert st. induction evs as [|[time ev] evs IH]; intros st H; [exact H|].
  apply (IH (step time ev st)). now apply step_keeps_abandoned.
Qed.

(** ** The guard while no task can release it *)

Lemma getTagDataEvent_start_locked o time sh :
  loadLock sh = true ->
  getTagDataEvent_start o time sh = (initDownloadStatus sh, PcAbandoned o).
Proof.
  intros H. unfold getTagDataEvent_start, download_acquire. cbn. now rewrite H.
Qed.

Lemma checkVersion_fetched_loadLock sha releaseLink info time sh :
  loadLock (fst (checkVersion_fetched sha releaseLink info time sh)) = loadLock sh.
Proof.
  unfold checkVersion_fetched. destruct info as [i|]; [|reflexivity].
  destruct (truthy_opt _); reflexivity.
Qed.

Lemma checkVersion_fetched_downloadStatus sha releaseLink info time sh :
  downloadStatus (fst (checkVersion_fetched sha releaseLink info time sh))
  = downloadStatus sh.
Proof.
  unfold checkVersion_fetched. destruct info as [i|]; [|reflexivity].
  destruct (truthy_opt _); reflexivity.
Qed.

Lemma finish_not_holder o : holder (finish o) = false.
Proof. destruct o; reflexivity. Qed.

Lemma autoUpdate_checked_locked version time sh sh' pc' :
  loadLock sh = true ->
  autoUpdate_checked version time sh = (sh', pc') ->
  loadLock sh' = true /\ holder pc' = false.
Proof.
  intros Hl. unfold autoUpdate_checked.
  destruct version as [v|]; [|intros [= <- <-]; auto].
  destruct (truthy (new v) && negb (String.eqb (new v) (old v))).
  - rewrite (getTagDataEvent_start_locked _ _ _ Hl). intros [= <- <-]. auto.
  - intros [= <- <-]. auto.
Qed.

Lemma checkVersion_resume_locked time s w sh :
  loadLock sh = true ->
  match checkVersion_resume time s w sh with
  | Some (CheckWaits sh' _) | Some (CheckReturned sh' _) => loadLock sh' = true
  | _ => True
  end.
Proof.
  intros Hl. destruct w, s as [[?|[? ?]] | [?|?] | | | | |]; cbn; auto.
  pose proof (checkVersion_fetched_loadLock sha releaseLink o time sh) as E.
  destruct (checkVersion_fetched _ _ _ _ _). cbn in E. congruence.
Qed.

Lemma resume_locked time s pc sh sh' pc' :
  loadLock sh = true -> holder pc = false ->
  resume time s pc sh = Some (sh', pc') ->
  loadLock sh' = true /\ holder pc' = false.
Proof.
  intros Hl Hh Hr. destruct pc as [w | w | o w | o i | o | o | o since | r];
    try discriminate; cbn in Hr.
  - pose proof (checkVersion_resume_locked time s w sh Hl) as Hc.
    destruct (checkVersion_resume time s w sh) as [[e | sh1 w1 | sh1 d]|];
      simplify_eq; auto.
  - pose proof (checkVersion_resume_locked time s w sh Hl) as Hc.
    destruct (checkVersion_resume time s w sh) as [[e | sh1 w1 | sh1 d]|];
      simplify_eq; auto.
    eapply autoUpdate_checked_locked; eauto.
  - unfold getTagDataEvent_catch, getTagDataEvent_updated in Hr.
    destruct s as [| | | | | [e|[sha releaseLink]] |]; simplify_eq; cbn.
    + split; [exact Hl | apply finish_not_holder].
    + auto.
  - unfold getTagDataEvent_woken, downloadStatus_complete_member in Hr.
    destruct s; try discriminate.
    destruct (since + 2500 <=? time); simplify_eq.
    cbn. split; [exact Hl | apply finish_not_holder].
Qed.

Lemma spawn_locked time ev sh sh' pc' :
  loadLock sh = true ->
  spawn time ev sh = Some (sh', pc') ->
  loadLock sh' = true /\ holder pc' = false.
Proof.
  intros Hl. destruct ev as [| force | | tid s]; cbn.
  - rewrite (getTagDataEvent_start_locked _ _ _ Hl). intros [= <- <-]. auto.
  - destruct (checkVersion_start _ _ _); intros [= <- <-]; auto.
  - intros [= <- <-]. auto.
  - discriminate.
Qed.

Lemma step_guard_leaked time ev st :
  guard_leaked st -> guard_leaked (step time ev st).
Proof.
  intros [Hl Hf]. unfold step.
  destruct ev as [| force | | tid s].
  1-3: match goal with
       | |- context [spawn ?t ?e ?sh] =>
           destruct (spawn t e sh) as [[sh' pc']|] eqn:Hs; [|now split];
           destruct (spawn_locked _ _ _ _ _ Hl Hs) as [Hl' Hh'];
           split; [exact Hl' | cbn; apply Forall_app; split; [exact Hf | now constructor]]
       end.
  destruct (tasks st !! tid) as [pc|] eqn:Hpc; [|now split].
  destruct (resume time s pc (shared st)) as [[sh' pc']|] eqn:Hr; [|now split].
  assert (Hh : holder pc = false).
  { rewrite Forall_lookup in Hf. exact (Hf tid pc Hpc). }
  destruct (resume_locked _ _ _ _ _ _ Hl Hh Hr) as [Hl' Hh'].
  split; [exact Hl'|]. cbn. apply Forall_insert; assumption.
Qed.

Lemma exec_guard_leaked evs st : guard_leaked st -> guard_leaked (exec evs st).
Proof.
  revert st. induction evs as [|[time ev] evs IH]; intros st H; [exact H|].
  apply (IH (step time ev st)), step_guard_leaked, H.
Qed.

(** ** C1: a call of [download] while the guard is held *)

Lemma download_acquire_contended sh :
  loadLock sh = true -> download_acquire sh = None.
Proof. unfold download_acquire. now intros ->. Qed.

(** C1, where the code departs from it.  After two requests for an update
    in a row, the first is inside [download] and holds the guard; the
    second call of [download] took line 115, and whatever happens next the
    task awaiting its promise stays where it is: the promise is neither
    resolved with the result of the first download nor rejected. *)
Theorem contended_download_never_settles (evs : list (Z * Event)) :
  loadLock (shared contended) = true
  /\ tasks contended !! 0%nat = Some (PcDownloadCheck FromGetTagData AwaitStorage)
  /\ tasks (exec evs contended) !! 1%nat = Some (PcAbandoned FromGetTagData).
Proof.
  split; [reflexivity|]. split; [reflexivity|].
  apply exec_keeps_abandoned. reflexivity.
Qed.

(** ** C2: the guard when the version check throws *)

(** C2, where the code departs from it.  When the request of the version
    check made inside [download] fails, the executor of line 113 is left at
    line 120 with the guard held: in every later state [loadLock] is still
    set and the operation has not settled. *)
Theorem guard_kept_when_check_throws (evs : list (Z * Event)) :
  loadLock (shared (exec evs check_failed)) = true
  /\ tasks (exec evs check_failed) !! 0%nat = Some (PcAbandoned FromGetTagData).
Proof.
  split.
  - apply (exec_guard_leaked evs check_failed).
    split; [reflexivity | repeat constructor].
  - apply exec_keeps_abandoned. reflexivity.
Qed.

(** On the exits the code does handle, the guard is free once the promise
    is settled. *)
Lemma guard_released_on_handled_exits checkData sh :
  (forall sh' err, download_continue checkData sh = (sh', inl err) ->
                   loadLock sh' = false)
  /\ loadLock (xhr_onload sh) = false
  /\ loadLock (xhr_onerror sh) = false.
Proof.
  split; [|split; reflexivity].
  intros sh' err H. apply download_continue_rejected in H as [-> _]. reflexivity.
Qed.

(** ** C6: the reset after the grace period *)

(** C6, where the code departs from it.  A second update is requested
    during the grace period of a successful one and has started its
    transfer; the status it published has [complete] unset.  When the timer
    of the first update fires, line 62 still takes the branch: the badge is
    cleared and the status of the running operation is replaced by the idle
    one. *)
Theorem deferred_reset_overwrites_newer_operation :
  let before := exec update_during_grace initial in
  let after := step 3505 (Wake 0 TimerFired) before in
  tasks before !! 0%nat = Some (PcSleep FromGetTagData 1005)
  /\ tasks before !! 1%nat = Some (PcTransfer FromGetTagData release_v2)
  /\ downloadStatus (shared before)
     = {| run := true; progress := Int 0; info := "0%";
          complete := false; error := false |}
  /\ tasks after !! 1%nat = Some (PcTransfer FromGetTagData release_v2)
  /\ downloadStatus (shared after) = defaultStatus
  /\ effects_since (shared before) (shared after)
     = [BadgeSet "" "#4A90E2" None; Broadcast defaultStatus].
Proof. cbv zeta. repeat split; reflexivity. Qed.

(** ** C7: the listener of [auto-update] *)

(** What lines 38-42 do with a check that produced a result. *)
Lemma autoUpdate_checked_some v time sh :
  autoUpdate_checked (Some v) time sh =
  if truthy (new v) && negb (String.eqb (new v) (old v))
  then getTagDataEvent_start FromAutoUpdate time sh
  else (sh, PcDone (Returned (VBool false))).
Proof. reflexivity. Qed.

(** C7, where the code departs from it.  When the forced check of an
    automatic update is answered by a document without [target_commitish],
    the listener neither runs the update nor returns [false]: it ends with
    the [TypeError] of the access [version.new], the status untouched.  And
    when the check finds a newer version while another update holds the
    guard, the listener never returns at all: it waits for a
    [getTagDataEvent] that is stuck at line 51. *)
Theorem autoUpdate_faults_or_hangs (evs : list (Z * Event)) :
  (let st := exec auto_update_without_version initial in
   tasks st !! 0%nat = Some (PcDone (Threw null_property_access))
   /\ tasks st !! 0%nat <> Some (PcDone (Returned (VBool false)))
   /\ downloadStatus (shared st) = defaultStatus
   /\ In (Fetch githubDownloadUrl) (effects (shared st)))
  /\ (let st := exec auto_update_contended initial in
      new (lastCheckData (shared st)) = "v2"
      /\ old (lastCheckData (shared st)) = "v1"
      /\ tasks (exec evs st) !! 1%nat = Some (PcAbandoned FromAutoUpdate)).
Proof.
  cbv zeta. split.
  - split; [reflexivity|]. split; [vm_compute; discriminate|].
    split; [reflexivity|]. vm_compute. auto.
  - split; [reflexivity|]. split; [reflexivity|].
    apply exec_keeps_abandoned. reflexivity.
Qed.

(** ** C9: the progress published during a transfer *)

Lemma is_percentage_bounds n :
  is_percentage n -> num_le (Int 0) n /\ num_le n (Int 100).
Proof. destruct n; cbn; [lia | tauto | tauto]. Qed.

Lemma effects_since_app sh sh' d :
  effects sh' = effects sh ++ d -> effects_since sh sh' = d.
Proof. intros E. unfold effects_since. rewrite E. apply drop_app_length. Qed.

Lemma xhr_onprogress_effects lc loaded total sh :
  effects (xhr_onprogress lc loaded total sh)
  = effects sh
    ++ (if lc
        then [Broadcast (downloadStatus (xhr_onprogress lc loaded total sh));
              BadgeSet (number_toFixed0 (percent loaded total)) "#4A90E2" (Some 1)]
        else []).
Proof.
  destruct lc; cbn; [|now rewrite app_nil_r].
  now rewrite <- app_assoc.
Qed.

Lemma progress_events_effects total ps sh :
  exists d,
    effects (fold_left (fun s p => xhr_onprogress (fst p) (snd p) total s) ps sh)
    = effects sh ++ d
    /\ published_progress d
       = map (fun p => percent (snd p) total) (List.filter fst ps).
Proof.
  revert sh. induction ps as [|[lc loaded] ps IH]; intros sh.
  - exists []. split; [now rewrite app_nil_r | reflexivity].
  - cbn [fold_left fst snd].
    destruct (IH (xhr_onprogress lc loaded total sh)) as (d & E & P).
    rewrite xhr_onprogress_effects in E. rewrite <- app_assoc in E.
    eexists. split; [exact E|].
    unfold published_progress in *. rewrite omap_app, P.
    destruct lc; reflexivity.
Qed.

Lemma percents_in_order total ps :
  (0 < total)%N ->
  Forall (fun p => (snd p <= total)%N) ps ->
  StronglySorted (fun p q => (snd p <= snd q)%N) ps ->
  let l := map (fun p : bool * N => percent (snd p) total) (List.filter fst ps)
           ++ [Int 100] in
  Forall is_percentage l /\ StronglySorted num_le l.
Proof.
  intros Ht Hb Hs. cbv zeta.
  induction ps as [|[lc loaded] ps IH].
  - cbn. split; repeat constructor; cbn; lia.
  - apply Forall_cons in Hb as [Hb1 Hb]. cbn in Hb1.
    apply StronglySorted_inv in Hs as [Hs Hall].
    destruct (IH Hb Hs) as [IH1 IH2].
    cbn [List.filter fst]. destruct lc; [|split; assumption].
    cbn [map app snd].
    pose proof (percent_bounds loaded total Ht Hb1) as Hp.
    split; [constructor; assumption|].
    constructor; [exact IH2|].
    apply Forall_app. split.
    + apply Forall_forall. intros n Hn.
      apply list_elem_of_In, in_map_iff in Hn as ([lc' q] & <- & Hq).
      apply filter_In in Hq as [Hq _].
      rewrite List.Forall_forall in Hall. specialize (Hall _ Hq). cbn in Hall.
      cbn [snd]. apply percent_mono; assumption.
    + constructor; [|constructor].
      apply is_percentage_bounds, Hp.
Qed.

(** The digits that [Number::toString] prints denote the number printed. *)
Lemma shortest_from_reads_back fuel k x :
  reads_back x x = true -> reads_back (shortest_from fuel k x) x = true.
Proof.
  intros Hx. revert k. induction fuel as [|fuel IH]; intros k; cbn; [exact Hx|].
  destruct (digit_count x - k <=? 0); [exact Hx|].
  destruct (reads_back (x / 10 ^ (digit_count x - k) * 10 ^ (digit_count x - k)) x)
    eqn:Hlo;
    destruct (reads_back (x / 10 ^ (digit_count x - k) * 10 ^ (digit_count x - k)
                          + 10 ^ (digit_count x - k)) x) eqn:Hhi;
    try assumption; [|apply IH].
  repeat match goal with |- context [if ?b then _ else _] => destruct b end;
    assumption.
Qed.

Lemma shortest_reads_back x :
  reads_back x x = true -> reads_back (shortest x) x = true.
Proof. apply shortest_from_reads_back. Qed.

(** The two texts of a number.  Up to 2^53 both print every digit; above,
    [percent + '%'] prints the shortest digits that read back as the same
    double and pads with zeros, and from 1e21 on it uses the exponent
    notation, which [toFixed(0)] then takes over. *)
Lemma number_texts :
  number_to_string (Int 0) = "0"
  /\ number_to_string (Int 28) = "28"
  /\ number_to_string (Int 100) = "100"
  /\ number_to_string (Int (2 ^ 53)) = "9007199254740992"
  /\ number_to_string (Int (2 ^ 64)) = "18446744073709552000"
  /\ number_toFixed0 (Int (2 ^ 64)) = "18446744073709551616"
  /\ number_to_string (Int (10 ^ 21)) = "1e+21"
  /\ number_toFixed0 (Int (10 ^ 21)) = "1e+21"
  /\ number_to_string (Int (2 ^ 70)) = "1.1805916207174113e+21"
  /\ number_toFixed0 (Int (2 ^ 70)) = "1.1805916207174113e+21"
  /\ number_to_string NaN = "NaN"
  /\ number_toFixed0 Infinity = "Infinity".
Proof. repeat split; vm_compute; reflexivity. Qed.

(** On a percentage both texts are the decimal digits of the number. *)
Lemma percentage_texts z :
  0 <= z <= 100 ->
  number_to_string (Int z) = decimal z /\ number_toFixed0 (Int z) = decimal z.
Proof.
  intros Hz.
  assert (Hall : forallb (fun n => String.eqb (number_to_string (Int (Z.of_nat n)))
                                     (decimal (Z.of_nat n))
                                   && String.eqb (number_toFixed0 (Int (Z.of_nat n)))
                                        (decimal (Z.of_nat n)))
                   (seq 0 101) = true) by (vm_compute; reflexivity).
  rewrite forallb_forall in Hall.
  specialize (Hall (Z.to_nat z)).
  rewrite Z2Nat.id in Hall by lia.
  assert (Hin : In (Z.to_nat z) (seq 0 101)) by (apply in_seq; lia).
  apply Hall, andb_true_iff in Hin as [H1 H2].
  apply String.eqb_eq in H1, H2. auto.
Qed.

(** The texts of an event that reports 2^64 - 1 bytes of 100, and of one
    that reports as many of a single byte. *)
Lemma huge_progress_texts :
  (let sh' := xhr_onprogress true 18446744073709551615 100 (shared initial) in
   progress (downloadStatus sh') = Int (2 ^ 64)
   /\ info (downloadStatus sh') = "18446744073709552000%"
   /\ last (effects sh')
      = Some (BadgeSet "18446744073709551616" "#4A90E2" (Some 1)))
  /\ (let sh' := xhr_onprogress true 18446744073709551615 1 (shared initial) in
      progress (downloadStatus sh') = Int (2 ^ 64 * 100)
      /\ info (downloadStatus sh') = "1.8446744073709552e+21%"
      /\ last (effects sh')
         = Some (BadgeSet "1.8446744073709552e+21" "#4A90E2" (Some 1))).
Proof. cbv zeta. repeat split; vm_compute; reflexivity. Qed.

(** C9, as the code has it.  Every progress event with
    [lengthComputable] publishes the value [p] of line 157 (the floor of
    the double-precision product) as [progress], the text that
    [Number::toString] gives of [p] followed by [%] as [info], and hands the
    text that [toFixed(0)] gives of [p] to the badge; an event
    without [lengthComputable] publishes nothing.  Within one request whose
    events report a fixed positive [total], never more than [total] bytes
    and non-decreasing byte counts, the values published by its handlers (0
    when it is sent, one per such event, 100 on load) lie in [0, 100] and
    never decrease.  For an event that reports no more than a positive
    [total], the two texts are the decimal digits of [p]. *)
Theorem transfer_progress :
  (forall loaded total sh,
     let sh' := xhr_onprogress true loaded total sh in
     progress (downloadStatus sh') = percent loaded total
     /\ info (downloadStatus sh') = number_to_string (percent loaded total) +:+ "%"
     /\ effects_since sh sh'
        = [Broadcast (downloadStatus sh');
           BadgeSet (number_toFixed0 (percent loaded total)) "#4A90E2" (Some 1)])
  /\ (forall loaded total sh, xhr_onprogress false loaded total sh = sh)
  /\ (forall url total ps sh,
        (0 < total)%N ->
        Forall (fun p => (snd p <= total)%N) ps ->
        StronglySorted (fun p q => (snd p <= snd q)%N) ps ->
        let published :=
          published_progress
            (effects_since sh (transfer total ps (start_transfer url sh))) in
        published
        = Int 0 :: map (fun p => percent (snd p) total) (List.filter fst ps)
                ++ [Int 100]
        /\ Forall is_percentage published
        /\ StronglySorted num_le published)
  /\ (forall loaded total,
        (0 < total)%N -> (loaded <= total)%N ->
        exists z, percent loaded total = Int z /\ 0 <= z <= 100
                  /\ number_to_string (Int z) = decimal z
                  /\ number_toFixed0 (Int z) = decimal z).
Proof.
  split; [|split; [|split]]; cycle 3.
  { intros loaded total Ht Hb.
    pose proof (percent_bounds loaded total Ht Hb) as Hp.
    destruct (percent loaded total) as [z| |]; cbn in Hp; try tauto.
    exists z. split; [reflexivity|]. split; [exact Hp|].
    now apply percentage_texts. }
  - intros loaded total sh sh'. split; [reflexivity|]. split; [reflexivity|].
    apply effects_since_app. subst sh'.
    rewrite xhr_onprogress_effects. reflexivity.
  - reflexivity.
  - intros url total ps sh Ht Hb Hs published.
    destruct (progress_events_effects total ps (start_transfer url sh))
      as (d & E & P).
    assert (Hpub : published
                   = Int 0 :: map (fun p => percent (snd p) total) (List.filter fst ps)
                           ++ [Int 100]).
    { subst published.
      erewrite effects_since_app; cycle 1.
      { unfold transfer, xhr_onload. cbn. rewrite E. cbn.
        rewrite <- !app_assoc. reflexivity. }
      unfold published_progress in *. cbn. rewrite omap_app, P. reflexivity. }
    split; [exact Hpub|]. rewrite Hpub.
    destruct (percents_in_order total ps Ht Hb Hs) as [H1 H2].
    split.
    + constructor; [cbn; lia | exact H1].
    + constructor; [exact H2|].
      eapply Forall_impl; [exact H1|].
      intros n Hn. apply is_percentage_bounds, Hn.
Qed.

Lemma transfer_progress_witness :
  published_progress
    (effects_since (shared initial)
       (transfer 100 [(true, 29%N); (false, 40%N); (true, 100%N)]
          (start_transfer "https://x/db.gz" (shared initial))))
  = [Int 0; Int 28; Int 100; Int 100]
  /\ exists z, percent 29 100 = Int z /\ 0 <= z <= 100
               /\ number_to_string (Int z) = decimal z
               /\ number_toFixed0 (Int z) = decimal z.
Proof.
  destruct transfer_progress as (_ & _ & H & T).
  split.
  - destruct (H "https://x/db.gz" 100%N [(true, 29%N); (false, 40%N); (true, 100%N)]
                (shared initial)) as (E & _ & _).
    + reflexivity.
    + repeat constructor; cbn; lia.
    + repeat constructor; cbn; lia.
    + rewrite E. vm_compute. reflexivity.
  - apply (T 29%N 100%N); lia.
Defined.

(** The claim of C9 fails where it bounds and orders the values: an event
    that reports 200 of 100 bytes publishes 200; and a request for an
    update that arrives while a transfer is at 50 publishes 0 after it. *)
Lemma progress_claim_fails :
  (let st := exec overshooting_progress initial in
   progress (downloadStatus (shared st)) = Int 200
   /\ ~ is_percentage (progress (downloadStatus (shared st))))
  /\ (let st := exec request_during_transfer initial in
      tasks st !! 0%nat = Some (PcTransfer FromGetTagData release_v2)
      /\ published_progress (effects (shared st))
         = [Int 0; Int 0; Int 0; Int 0; Int 50; Int 0]
      /\ ~ num_le (Int 50) (Int 0)).
Proof.
  cbv zeta. split.
  - assert (E : progress (downloadStatus (shared (exec overshooting_progress initial)))
                = Int 200) by (vm_compute; reflexivity).
    split; [exact E|]. rewrite E. cbn. lia.
  - split; [reflexivity|]. split; [vm_compute; reflexivity | cbn; lia].
Qed.

(** ** C3: the shape of the status *)

Lemma finish_inactive o : active (finish o) = false.
Proof. destruct o; reflexivity. Qed.

Lemma finish_not_abandoned o : abandoned (finish o) = false.
Proof. destruct o; reflexivity. Qed.

Lemma resting_mono (h h' : bool) s :
  (h = true -> h' = true) -> resting h s -> resting h' s.
Proof. intros Hh [Hq | (H1 & H2)]; [now left | right; auto]. Qed.

Lemma shape_mono (h h' : bool) pc s :
  (h = true -> h' = true) -> shape h pc s -> shape h' pc s.
Proof. intros Hh. destruct pc; cbn; auto. now apply resting_mono. Qed.

(** A turn that ends [quiet], or in a running shape, is [settled]. *)
Lemma settled_intro (h : bool) pc s :
  (if active pc then shape h pc s else quiet s) -> settled h pc s.
Proof. unfold settled. destruct (active pc); [auto | now left]. Qed.

Lemma catch_shape o e sh :
  complete (downloadStatus sh) = false ->
  active (snd (getTagDataEvent_catch o e sh)) = false
  /\ quiet (downloadStatus (fst (getTagDataEvent_catch o e sh))).
Proof.
  intros Hc. cbn. split; [apply finish_inactive|].
  right. cbn. auto.
Qed.

Lemma download_continue_started checkData sh sh' info :
  download_continue checkData sh = (sh', inr info) ->
  exists url, sh' = start_transfer url sh.
Proof.
  unfold download_continue.
  destruct checkData as [[? ? ? ? ? [[? ? [l|]]|]]|]; try discriminate.
  destruct (negb (truthy (asset_url (find_asset l)))); [discriminate|].
  intros [= <- <-]. eauto.
Qed.

Lemma checked_shape (h : bool) o checkData sh :
  run (downloadStatus sh) = true ->
  complete (downloadStatus sh) = false ->
  error (downloadStatus sh) = false ->
  let r := getTagDataEvent_checked o checkData sh in
  if active (snd r) then shape h (snd r) (downloadStatus (fst r))
  else quiet (downloadStatus (fst r)).
Proof.
  intros Hr Hc He. unfold getTagDataEvent_checked.
  destruct (download_continue checkData sh) as [sh1 [err|info]] eqn:D.
  - apply download_continue_rejected in D as [-> _].
    destruct (catch_shape o err (set_loadLock false sh) Hc) as [Ha Hq].
    cbv zeta. rewrite Ha. exact Hq.
  - apply download_continue_started in D as [url ->].
    cbn. auto.
Qed.

Lemma download_acquire_status sh sh2 :
  download_acquire sh = Some sh2 ->
  run (downloadStatus sh2) = true
  /\ complete (downloadStatus sh2) = complete (downloadStatus sh)
  /\ error (downloadStatus sh2) = error (downloadStatus sh).
Proof.
  unfold download_acquire. destruct (loadLock sh); [discriminate|].
  intros [= <-]. cbn. auto.
Qed.

(** A refused call leaves the idle status of line 49 behind. *)
Lemma start_shape (h : bool) o time sh :
  let r := getTagDataEvent_start o time sh in
  if active (snd r) then shape h (snd r) (downloadStatus (fst r))
  else quiet (downloadStatus (fst r)).
Proof.
  unfold getTagDataEvent_start.
  destruct (download_acquire (initDownloadStatus sh)) as [sh2|] eqn:A;
    [|cbn; left; reflexivity].
  apply download_acquire_status in A as (Hr & Hc & He). cbn in Hc, He.
  destruct (checkVersion_start false time sh2) as [d|]; [|cbn; auto].
  apply checked_shape; assumption.
Qed.

Lemma autoUpdate_checked_shape (h : bool) version time sh :
  resting h (downloadStatus sh) ->
  let r := autoUpdate_checked version time sh in
  settled h (snd r) (downloadStatus (fst r)).
Proof.
  intros Hq. unfold autoUpdate_checked.
  assert (Hrest : settled h (PcDone (Threw null_property_access)) (downloadStatus sh)
                  /\ settled h (PcDone (Returned (VBool false))) (downloadStatus sh)).
  { unfold settled. cbn. rewrite orb_false_r. auto. }
  destruct version as [v|]; [|apply Hrest].
  destruct (truthy (new v) && negb (String.eqb (new v) (old v)));
    [apply settled_intro, start_shape | apply Hrest].
Qed.

Lemma checkVersion_resume_status time s w sh :
  match checkVersion_resume time s w sh with
  | Some (CheckWaits sh' _) | Some (CheckReturned sh' _) =>
      downloadStatus sh' = downloadStatus sh
  | _ => True
  end.
Proof.
  destruct w, s as [[?|[? ?]] | [?|?] | | | | |]; cbn; auto.
  pose proof (checkVersion_fetched_downloadStatus sha releaseLink o time sh) as E.
  destruct (checkVersion_fetched _ _ _ _ _). exact E.
Qed.

Lemma resume_inactive time s pc sh sh' pc' :
  active pc = false ->
  resume time s pc sh = Some (sh', pc') ->
  active pc' = false /\ abandoned pc' = false
  /\ downloadStatus sh' = downloadStatus sh.
Proof.
  intros Ha Hr. destruct pc; try discriminate. cbn in Hr.
  pose proof (checkVersion_resume_status time s w sh) as Hs.
  destruct (checkVersion_resume time s w sh) as [[e | sh1 w1 | sh1 d]|];
    simplify_eq; auto.
Qed.

Lemma resume_active (h : bool) time s pc sh sh' pc' :
  active pc = true ->
  shape h pc (downloadStatus sh) ->
  resume time s pc sh = Some (sh', pc') ->
  settled h pc' (downloadStatus sh').
Proof.
  intros Ha Hsh Hr.
  destruct pc as [w | w | o w | o i | o | o | o since | r];
    try discriminate; cbn in Hr, Hsh.
  - (* line 37 *)
    pose proof (checkVersion_resume_status time s w sh) as Hs.
    destruct (checkVersion_resume time s w sh) as [[e | sh1 w1 | sh1 d]|];
      simplify_eq.
    + unfold settled. cbn. now rewrite orb_false_r.
    + unfold settled. cbn. now rewrite Hs.
    + rewrite <- Hs in Hsh.
      pose proof (autoUpdate_checked_shape h d time sh1 Hsh) as H.
      cbv zeta in H. rewrite Hr in H. exact H.
  - (* line 120 *)
    pose proof (checkVersion_resume_status time s w sh) as Hs.
    destruct Hsh as (Hr1 & Hc & He).
    destruct (checkVersion_resume time s w sh) as [[e | sh1 w1 | sh1 d]|];
      simplify_eq.
    + (* the check throws: the task is left for dead with its status *)
      unfold settled. cbn. right. rewrite orb_true_r. auto.
    + unfold settled. cbn. rewrite Hs. auto.
    + rewrite <- Hs in Hr1, Hc, He. apply settled_intro.
      pose proof (checked_shape h o d sh1 Hr1 Hc He) as H.
      cbv zeta in H. rewrite Hr in H. exact H.
  - (* the request *)
    destruct Hsh as (Hr1 & Hc & He). apply settled_intro.
    destruct s; try discriminate.
    + injection Hr as <- <-. destruct lengthComputable; cbn; auto.
    + unfold getTagDataEvent_downloaded in Hr. injection Hr as <- <-. cbn. auto.
    + assert (E : getTagDataEvent_catch o (Rejection None) (xhr_onerror sh)
                  = (sh', pc')) by congruence.
      pose proof (catch_shape o (Rejection None) (xhr_onerror sh) Hc) as [H1 H2].
      rewrite E in H1, H2. cbn [fst snd] in H1, H2. rewrite H1. exact H2.
  - (* line 52 *)
    destruct Hsh as (Hr1 & Hc & He). apply settled_intro.
    destruct s as [| | | | | [e|[sha releaseLink]] |]; try discriminate.
    + assert (E : getTagDataEvent_catch o e sh = (sh', pc')) by congruence.
      pose proof (catch_shape o e sh Hc) as [H1 H2].
      rewrite E in H1, H2. cbn [fst snd] in H1, H2. rewrite H1. exact H2.
    + unfold getTagDataEvent_updated in Hr. injection Hr as <- <-. cbn. auto.
  - (* line 61 *)
    apply settled_intro.
    destruct s; try discriminate.
    destruct (since + 2500 <=? time); [|discriminate].
    unfold getTagDataEvent_woken, downloadStatus_complete_member in Hr.
    injection Hr as <- <-.
    rewrite finish_inactive. left. reflexivity.
Qed.

Lemma filter_active_lookup (l : list Pc) i x y :
  l !! i = Some x ->
  List.filter active l
  = List.filter active (take i l) ++ (if active x then [x] else [])
    ++ List.filter active (drop (S i) l)
  /\ List.filter active (<[i:=y]> l)
     = List.filter active (take i l) ++ (if active y then [y] else [])
       ++ List.filter active (drop (S i) l).
Proof.
  intros H. split.
  - rewrite <- (take_drop_middle l i x H) at 1.
    rewrite List.filter_app. cbn. now destruct (active x).
  - rewrite insert_take_drop by (eapply lookup_lt_Some; eauto).
    rewrite List.filter_app. cbn. now destruct (active y).
Qed.

(** Replacing a task that is not dead adds at most its successor to the
    dead. *)
Lemma hung_insert (l : list Pc) i x y :
  l !! i = Some x -> abandoned x = false ->
  existsb abandoned (<[i:=y]> l) = existsb abandoned l || abandoned y.
Proof.
  intros H Hx.
  rewrite insert_take_drop by (eapply lookup_lt_Some; eauto).
  transitivity (existsb abandoned (take i l ++ x :: drop (S i) l) || abandoned y);
    [|now rewrite (take_drop_middle l i x H)].
  rewrite !existsb_app. cbn [existsb]. rewrite Hx.
  destruct (existsb abandoned (take i l)),
    (existsb abandoned (drop (S i) l)), (abandoned y); reflexivity.
Qed.

Lemma active_not_abandoned pc : active pc = true -> abandoned pc = false.
Proof. destruct pc; cbn; congruence. Qed.

Lemma busy_filter st : busy st = false <-> List.filter active (tasks st) = [].
Proof.
  unfold busy. induction (tasks st) as [|pc l IH]; cbn; [tauto|].
  destruct (active pc); cbn; [|exact IH].
  split; discriminate.
Qed.

Lemma unit_middle {A} (a b : A) (l1 l2 : list A) :
  l1 ++ [a] ++ l2 = [b] -> l1 = [] /\ l2 = [] /\ a = b.
Proof.
  destruct l1 as [|x l1]; cbn.
  - intros [= -> ->]. auto.
  - intros [= -> H]. destruct l1; discriminate.
Qed.

Lemma status_inv_settled (h : bool) st' pc' :
  List.filter active (tasks st') = (if active pc' then [pc'] else []) ->
  hung st' = h || abandoned pc' ->
  settled h pc' (downloadStatus (shared st')) ->
  status_inv st'.
Proof.
  intros Hf Hh Hs. unfold status_inv, settled in *. rewrite Hf, Hh.
  destruct (active pc') eqn:Ha.
  - right. exists pc'. split; [reflexivity|].
    eapply shape_mono; [|exact Hs]. intros ->. reflexivity.
  - left. auto.
Qed.

Lemma status_inv_lookup st tid pc :
  status_inv st -> tasks st !! tid = Some pc -> active pc = true ->
  shape (hung st) pc (downloadStatus (shared st)).
Proof.
  intros Hinv Hpc Ha.
  destruct (filter_active_lookup (tasks st) tid pc pc Hpc) as [F1 _].
  rewrite Ha in F1.
  destruct Hinv as [[Hnil _] | (pc0 & Hone & Hsh)].
  - rewrite Hnil in F1. symmetry in F1.
    apply app_eq_nil in F1 as [_ F1]. discriminate.
  - rewrite Hone in F1. symmetry in F1.
    apply unit_middle in F1 as (_ & _ & <-). exact Hsh.
Qed.

Lemma step_status_inv time ev st :
  status_inv st ->
  (starts_operation ev = true -> busy st = false) ->
  status_inv (step time ev st).
Proof.
  intros Hinv Hseq. unfold step.
  destruct ev as [| force | | tid s].
  - (* get-tag-data *)
    pose proof (proj1 (busy_filter st) (Hseq eq_refl)) as Hf.
    cbn [spawn].
    pose proof (start_shape (hung st) FromGetTagData time (shared st)) as Hs.
    cbv zeta in Hs.
    destruct (getTagDataEvent_start FromGetTagData time (shared st)) as [sh' pc'].
    cbn [fst snd] in Hs.
    apply (status_inv_settled (hung st) _ pc').
    + cbn [tasks]. rewrite List.filter_app, Hf. cbn. now destruct (active pc').
    + unfold hung. cbn [tasks]. rewrite existsb_app. cbn.
      now rewrite orb_false_r.
    + now apply settled_intro.
  - (* check-version *)
    cbn [spawn].
    destruct (checkVersion_start force time (shared st));
      unfold status_inv, hung in *; cbn [tasks shared];
      rewrite List.filter_app, existsb_app; cbn;
      rewrite app_nil_r, orb_false_r; exact Hinv.
  - (* auto-update *)
    pose proof (proj1 (busy_filter st) (Hseq eq_refl)) as Hf.
    destruct Hinv as [[_ Hq] | (pc & Hpc & _)]; [|congruence].
    cbn [spawn checkVersion_start negb andb]. right.
    exists (PcAutoCheck AwaitStorage). unfold hung. cbn [tasks shared].
    rewrite List.filter_app, Hf, existsb_app. cbn. rewrite orb_false_r.
    split; [reflexivity | exact Hq].
  - (* a task is woken *)
    destruct (tasks st !! tid) as [pc|] eqn:Hpc; [|exact Hinv].
    destruct (resume time s pc (shared st)) as [[sh' pc']|] eqn:Hr; [|exact Hinv].
    destruct (filter_active_lookup (tasks st) tid pc pc' Hpc) as [F1 F2].
    destruct (active pc) eqn:Ha.
    + pose proof (status_inv_lookup st tid pc Hinv Hpc Ha) as Hsh.
      destruct Hinv as [[Hnil _] | (pc0 & Hone & _)].
      { rewrite Hnil in F1. symmetry in F1.
        apply app_eq_nil in F1 as [_ F1]. discriminate. }
      rewrite Hone in F1. symmetry in F1.
      apply unit_middle in F1 as (F1a & F1b & <-).
      rewrite F1a, F1b in F2. cbn in F2. rewrite app_nil_r in F2.
      apply (status_inv_settled (hung st) _ pc').
      * exact F2.
      * unfold hung. cbn [tasks].
        apply (hung_insert _ _ pc); [exact Hpc|].
        now apply active_not_abandoned.
      * cbn [shared]. eapply resume_active; eauto.
    + destruct (resume_inactive _ _ _ _ _ _ Ha Hr) as (Ha' & Hb' & Hst).
      assert (Hab : abandoned pc = false).
      { destruct pc; try discriminate; reflexivity. }
      rewrite Ha' in F2. rewrite <- F1 in F2.
      unfold status_inv, hung in *. cbn [tasks shared].
      rewrite F2, Hst, (hung_insert _ _ pc pc' Hpc Hab), Hb', orb_false_r.
      exact Hinv.
Qed.

Lemma well_formed_quiet s : quiet s -> well_formed s.
Proof.
  intros [-> | (H1 & H2 & H3)]; unfold well_formed.
  - cbn. repeat split; discriminate.
  - rewrite H1, H2, H3. cbn. repeat split; discriminate.
Qed.

Lemma well_formed_resting h s : resting h s -> well_formed s.
Proof.
  intros [Hq | (_ & H2 & H3)]; [now apply well_formed_quiet|].
  unfold well_formed. rewrite H2, H3. cbn. repeat split; discriminate.
Qed.

Lemma well_formed_shape h pc s : active pc = true -> shape h pc s -> well_formed s.
Proof.
  intros Ha Hsh. destruct pc; try discriminate; cbn in Hsh.
  - now apply (well_formed_resting h).
  - destruct Hsh as (H1 & H2 & H3). unfold well_formed. rewrite H1, H2, H3.
    cbn. repeat split; discriminate.
  - destruct Hsh as (H1 & H2 & H3). unfold well_formed. rewrite H1, H2, H3.
    cbn. repeat split; discriminate.
  - destruct Hsh as (H1 & H2 & H3). unfold well_formed. rewrite H1, H2, H3.
    cbn. repeat split; discriminate.
  - destruct Hsh as (H1 & H2 & H3 & H4). unfold well_formed.
    rewrite H1, H2, H3, H4. cbn. repeat split; discriminate.
Qed.

(** Each handler publishes well-formed values only. *)

Lemma emit_ok e sh : effects_ok sh -> effect_ok e -> effects_ok (emit e sh).
Proof.
  intros H He. unfold effects_ok. cbn. apply Forall_app. split; [exact H|].
  now constructor.
Qed.

Lemma push_ok data sh :
  effects_ok sh -> well_formed (merge (downloadStatus sh) data) ->
  effects_ok (pushDownloadStatus data sh).
Proof.
  intros H Hw. unfold effects_ok. cbn. apply Forall_app. split; [exact H|].
  now constructor.
Qed.

Lemma set_loadLock_ok b sh : effects_ok sh -> effects_ok (set_loadLock b sh).
Proof. exact id. Qed.

Lemma lastCheckData_next_ok d sh : effects_ok sh -> effects_ok (lastCheckData_next d sh).
Proof. exact id. Qed.

Lemma init_ok sh : effects_ok sh -> effects_ok (initDownloadStatus sh).
Proof.
  intros H. unfold effects_ok. cbn. apply Forall_app. split; [exact H|].
  constructor; [|constructor]. apply well_formed_quiet. now left.
Qed.

Lemma well_formed_running s data :
  default (run s) (p_run data) = true ->
  default (complete s) (p_complete data) = false ->
  default (error s) (p_error data) = false ->
  well_formed (merge s data).
Proof.
  intros H1 H2 H3. unfold well_formed. cbn. rewrite H1, H2, H3.
  cbn. repeat split; discriminate.
Qed.

Lemma catch_ok o e sh :
  complete (downloadStatus sh) = false ->
  effects_ok sh ->
  effects_ok (fst (getTagDataEvent_catch o e sh)).
Proof.
  intros Hc H. cbn [getTagDataEvent_catch fst].
  apply push_ok; [apply emit_ok; [exact H | exact I]|].
  unfold well_formed. cbn. rewrite Hc. cbn. repeat split; discriminate.
Qed.

Lemma start_transfer_ok url sh :
  run (downloadStatus sh) = true ->
  complete (downloadStatus sh) = false ->
  error (downloadStatus sh) = false ->
  effects_ok sh -> effects_ok (start_transfer url sh).
Proof.
  intros Hr Hc He H. unfold start_transfer, badgeLoading_set.
  apply emit_ok; [|exact I].
  apply push_ok; [apply emit_ok; [exact H | exact I]|].
  apply well_formed_running; cbn; auto.
Qed.

Lemma checked_ok o checkData sh :
  run (downloadStatus sh) = true ->
  complete (downloadStatus sh) = false ->
  error (downloadStatus sh) = false ->
  effects_ok sh ->
  effects_ok (fst (getTagDataEvent_checked o checkData sh)).
Proof.
  intros Hr Hc He H. unfold getTagDataEvent_checked.
  destruct (download_continue checkData sh) as [sh1 [err|info]] eqn:D.
  - apply download_continue_rejected in D as [-> _].
    apply catch_ok; [exact Hc | exact H].
  - apply download_continue_started in D as [url ->].
    cbn [fst]. apply start_transfer_ok; assumption.
Qed.

Lemma download_acquire_ok sh sh2 :
  complete (downloadStatus sh) = false ->
  error (downloadStatus sh) = false ->
  effects_ok sh -> download_acquire sh = Some sh2 -> effects_ok sh2.
Proof.
  intros Hc He H. unfold download_acquire.
  destruct (loadLock sh); [discriminate|]. intros [= <-].
  apply push_ok; [apply emit_ok; [exact H | exact I]|].
  apply well_formed_running; cbn; auto.
Qed.

Lemma start_ok o time sh :
  effects_ok sh -> effects_ok (fst (getTagDataEvent_start o time sh)).
Proof.
  intros H. unfold getTagDataEvent_start.
  pose proof (init_ok sh H) as H1.
  destruct (download_acquire (initDownloadStatus sh)) as [sh2|] eqn:A;
    [|exact H1].
  pose proof (download_acquire_ok (initDownloadStatus sh) sh2 eq_refl eq_refl H1 A)
    as H2.
  apply download_acquire_status in A as (Hr & Hc & He). cbn in Hc, He.
  destruct (checkVersion_start false time sh2) as [d|].
  - apply checked_ok; assumption.
  - cbn [fst]. apply emit_ok; [exact H2 | exact I].
Qed.

Lemma autoUpdate_checked_ok version time sh :
  effects_ok sh -> effects_ok (fst (autoUpdate_checked version time sh)).
Proof.
  intros H. unfold autoUpdate_checked.
  destruct version as [v|]; [|exact H].
  destruct (truthy (new v) && negb (String.eqb (new v) (old v)));
    [apply start_ok, H | exact H].
Qed.

Lemma checkVersion_resume_ok time s w sh :
  effects_ok sh ->
  match checkVersion_resume time s w sh with
  | Some (CheckWaits sh' _) | Some (CheckReturned sh' _) => effects_ok sh'
  | _ => True
  end.
Proof.
  intros H. destruct w, s as [[?|[? ?]] | [?|?] | | | | |]; cbn; auto.
  - apply emit_ok; [exact H | exact I].
  - unfold checkVersion_fetched. destruct o as [i|]; [|exact H].
    destruct (truthy_opt (target_commitish i)); exact H.
Qed.

Lemma resume_ok (h : bool) time s pc sh sh' pc' :
  (active pc = true -> shape h pc (downloadStatus sh)) ->
  effects_ok sh ->
  resume time s pc sh = Some (sh', pc') ->
  effects_ok sh'.
Proof.
  intros Hsh H Hr.
  destruct pc as [w | w | o w | o i | o | o | o since | r];
    try discriminate; cbn in Hr;
    try specialize (Hsh eq_refl); cbn in Hsh.
  - pose proof (checkVersion_resume_ok time s w sh H) as Hc.
    destruct (checkVersion_resume time s w sh) as [[e | sh1 w1 | sh1 d]|];
      simplify_eq; auto.
  - pose proof (checkVersion_resume_ok time s w sh H) as Hc.
    destruct (checkVersion_resume time s w sh) as [[e | sh1 w1 | sh1 d]|];
      simplify_eq; auto.
    pose proof (autoUpdate_checked_ok d time sh1 Hc) as Hk.
    rewrite Hr in Hk. exact Hk.
  - pose proof (checkVersion_resume_ok time s w sh H) as Hc.
    pose proof (checkVersion_resume_status time s w sh) as Hs.
    destruct Hsh as (Hr1 & Hc1 & He1).
    destruct (checkVersion_resume time s w sh) as [[e | sh1 w1 | sh1 d]|];
      simplify_eq; auto.
    rewrite <- Hs in Hr1, Hc1, He1.
    pose proof (checked_ok o d sh1 Hr1 Hc1 He1 Hc) as Hk.
    rewrite Hr in Hk. exact Hk.
  - destruct Hsh as (Hr1 & Hc1 & He1).
    destruct s; try discriminate.
    + injection Hr as <- <-. unfold xhr_onprogress.
      destruct lengthComputable; [|exact H].
      apply emit_ok; [|exact I]. apply push_ok; [exact H|].
      apply well_formed_running; cbn; auto.
    + unfold getTagDataEvent_downloaded in Hr. injection Hr as <- <-.
      apply emit_ok; [|exact I]. unfold xhr_onload.
      apply set_loadLock_ok, emit_ok; [|exact I]. apply push_ok; [exact H|].
      apply well_formed_running; cbn; auto.
    + assert (E : getTagDataEvent_catch o (Rejection None) (xhr_onerror sh)
                  = (sh', pc')) by congruence.
      pose proof (catch_ok o (Rejection None) (xhr_onerror sh) Hc1) as Hk.
      rewrite E in Hk. apply Hk.
      unfold xhr_onerror. apply emit_ok; [exact H | exact I].
  - destruct Hsh as (Hr1 & Hc1 & He1).
    destruct s as [| | | | | [e|[sha releaseLink]] |]; try discriminate.
    + assert (E : getTagDataEvent_catch o e sh = (sh', pc')) by congruence.
      pose proof (catch_ok o e sh Hc1 H) as Hk. rewrite E in Hk. exact Hk.
    + unfold getTagDataEvent_updated in Hr. injection Hr as <- <-.
      apply lastCheckData_next_ok, push_ok;
        [apply emit_ok; [exact H | exact I]|].
      unfold well_formed. cbn. rewrite He1. repeat split; discriminate.
  - destruct s; try discriminate.
    destruct (since + 2500 <=? time); [|discriminate].
    unfold getTagDataEvent_woken, downloadStatus_complete_member in Hr.
    injection Hr as <- <-.
    apply init_ok, emit_ok; [exact H | exact I].
Qed.

Lemma spawn_ok time ev sh sh' pc' :
  effects_ok sh -> spawn time ev sh = Some (sh', pc') -> effects_ok sh'.
Proof.
  intros H. destruct ev as [| force | | tid s]; cbn [spawn].
  - intros [= E]. pose proof (start_ok FromGetTagData time sh H) as Hk.
    rewrite E in Hk. exact Hk.
  - destruct (checkVersion_start _ _ _); intros [= <- <-];
      [exact H | apply emit_ok; [exact H | exact I]].
  - cbn. intros [= <- <-]. apply emit_ok; [exact H | exact I].
  - discriminate.
Qed.

Lemma step_effects_ok time ev st :
  status_inv st -> effects_ok (shared st) -> effects_ok (shared (step time ev st)).
Proof.
  intros Hinv H. unfold step.
  destruct ev as [| force | | tid s].
  1-3: match goal with
       | |- context [spawn ?t ?e ?sh] =>
           destruct (spawn t e sh) as [[sh' pc']|] eqn:Hs; [|exact H];
           exact (spawn_ok _ _ _ _ _ H Hs)
       end.
  destruct (tasks st !! tid) as [pc|] eqn:Hpc; [|exact H].
  destruct (resume time s pc (shared st)) as [[sh' pc']|] eqn:Hr; [|exact H].
  cbn [shared]. eapply (resume_ok (hung st)); [|exact H|exact Hr].
  intros Ha. eapply status_inv_lookup; eauto.
Qed.

Lemma exec_status_inv evs st :
  status_inv st -> effects_ok (shared st) -> sequential evs st = true ->
  status_inv (exec evs st) /\ effects_ok (shared (exec evs st)).
Proof.
  revert st. induction evs as [|[time ev] evs IH]; intros st Hinv Hok Hseq;
    [split; assumption|].
  cbn [sequential] in Hseq. apply andb_true_iff in Hseq as [H1 H2].
  apply (IH (step time ev st)); [| |exact H2].
  - apply step_status_inv; [exact Hinv|].
    intros Hs. rewrite Hs in H1. cbn in H1. now apply negb_true_iff in H1.
  - apply step_effects_ok; assumption.
Qed.

Lemma initial_status_inv : status_inv initial /\ effects_ok (shared initial).
Proof.
  split.
  - left. split; [reflexivity | left; left; reflexivity].
  - constructor; [|constructor]. apply well_formed_quiet. now left.
Qed.

(** C3, as the code has it.  Take any run in which no update operation
    ([get-tag-data], [auto-update]) is requested while another is running; a
    request may follow an operation that has returned, and also one that
    [download] has left hanging for ever.  Then every value the status has
    taken (each one is broadcast) and the current one satisfy: at most one of
    [complete] and [error] is set; [error] is set only with [run] unset;
    [complete] is set only together with [run] and a progress of 100 (the
    status of line 55).  And whenever no update operation is running, the
    status is the idle one, or the one left by a failed operation ([run] and
    [complete] unset, [error] set), or, when some operation has been left
    hanging, a status with neither [complete] nor [error]: the one the
    hanging operation left. *)
Theorem status_shape_when_sequential (evs : list (Z * Event)) :
  sequential evs initial = true ->
  let st := exec evs initial in
  let s := downloadStatus (shared st) in
  (forall v, In (Broadcast v) (effects (shared st)) -> well_formed v)
  /\ complete s && error s = false
  /\ (error s = true -> run s = false)
  /\ (complete s = true -> run s = true /\ progress s = Int 100)
  /\ (busy st = false ->
      s = defaultStatus
      \/ (run s = false /\ complete s = false /\ error s = true)
      \/ (hung st = true /\ complete s = false /\ error s = false)).
Proof.
  intros Hseq st s.
  destruct initial_status_inv as [Hi Ho].
  destruct (exec_status_inv evs initial Hi Ho Hseq) as [Hinv Hok].
  fold st in Hinv, Hok.
  split.
  { intros v Hv. unfold effects_ok in Hok. rewrite List.Forall_forall in Hok.
    exact (Hok _ Hv). }
  destruct Hinv as [[Hnil Hq] | (pc & Hone & Hsh)].
  - destruct (well_formed_resting _ _ Hq) as (A & B & C). fold s in A, B, C.
    repeat split; auto; try (apply C; auto).
    intros _. fold s in Hq. destruct Hq as [[Hq | Hq] | Hq]; auto.
  - assert (Ha : active pc = true).
    { assert (Hin : In pc (List.filter active (tasks st)))
        by (rewrite Hone; now left).
      now apply filter_In in Hin. }
    destruct (well_formed_shape _ pc _ Ha Hsh) as (A & B & C). fold s in A, B, C.
    repeat split; auto; try (apply C; auto).
    intros Hb. apply busy_filter in Hb. fold st in Hb. congruence.
Qed.

Lemma status_shape_when_sequential_witness :
  let evs := hanging_update in
  sequential evs initial = true
  /\ hung (exec evs initial) = true
  /\ (forall v, In (Broadcast v) (effects (shared (exec evs initial))) ->
                well_formed v)
  /\ (busy (exec evs initial) = false ->
      downloadStatus (shared (exec evs initial)) = defaultStatus
      \/ (run (downloadStatus (shared (exec evs initial))) = false
          /\ complete (downloadStatus (shared (exec evs initial))) = false
          /\ error (downloadStatus (shared (exec evs initial))) = true)
      \/ (hung (exec evs initial) = true
          /\ complete (downloadStatus (shared (exec evs initial))) = false
          /\ error (downloadStatus (shared (exec evs initial))) = false)).
Proof.
  intros evs.
  assert (Hseq : sequential evs initial = true) by (vm_compute; reflexivity).
  split; [exact Hseq|].
  split; [vm_compute; reflexivity|].
  destruct (status_shape_when_sequential evs Hseq) as (H1 & _ & _ & _ & H2).
  split; [exact H1 | exact H2].
Defined.

(** An operation left hanging by a failed check is not running: its status
    ([run] set, neither [complete] nor [error]) stays, a later request is
    not an overlap, and that request resets the status to the idle one
    before it is refused by the guard the first operation still holds. *)
Lemma status_after_hang :
  (let st := exec hanging_update initial in
   busy st = false /\ hung st = true
   /\ downloadStatus (shared st)
      = {| run := true; progress := Int 0; info := "加载中";
           complete := false; error := false |})
  /\ sequential update_after_hang initial = true
  /\ (let st := exec update_after_hang initial in
      busy st = false /\ hung st = true
      /\ downloadStatus (shared st) = defaultStatus).
Proof. cbv zeta. repeat split; vm_compute; reflexivity. Qed.

(** The claim of C3 fails on three counts: the status published on success
    has [run] and [complete] set together; a failed operation leaves the
    status in its error value, not the idle one; and when a second update
    overlaps the first, [complete] and [error] end up set together. *)
Lemma status_claim_fails :
  (let s := downloadStatus (shared (exec successful_update initial)) in
   run s = true /\ complete s = true)
  /\ (let st := exec failed_update initial in
      busy st = false /\ downloadStatus (shared st) <> defaultStatus)
  /\ (let s := downloadStatus (shared (exec overlapping_updates initial)) in
      complete s = true /\ error s = true).
Proof.
  cbv zeta. repeat split; try reflexivity.
  vm_compute. discriminate.
Qed.

(** * Further properties of the code *)

(** ** The guard admits one download at a time *)

Lemma filter_lookup_insert {A} (f : A -> bool) (l : list A) i x y :
  l !! i = Some x ->
  List.filter f l
  = List.filter f (take i l) ++ (if f x then [x] else [])
    ++ List.filter f (drop (S i) l)
  /\ List.filter f (<[i:=y]> l)
     = List.filter f (take i l) ++ (if f y then [y] else [])
       ++ List.filter f (drop (S i) l).
Proof.
  intros H. split.
  - rewrite <- (take_drop_middle l i x H) at 1.
    rewrite List.filter_app. cbn. now destruct (f x).
  - rewrite insert_take_drop by (eapply lookup_lt_Some; eauto).
    rewrite List.filter_app. cbn. now destruct (f y).
Qed.

Lemma filter_at_most_one {A} (f : A -> bool) (l : list A) i j x y :
  (length (List.filter f l) <= 1)%nat ->
  l !! i = Some x -> l !! j = Some y -> f x = true -> f y = true -> i = j.
Proof.
  revert i j. induction l as [|a l IH]; intros i j Hlen Hi Hj Hx Hy;
    [discriminate|].
  cbn in Hlen.
  destruct i as [|i], j as [|j]; cbn in Hi, Hj.
  - reflexivity.
  - injection Hi as ->. rewrite Hx in Hlen. cbn in Hlen.
    assert (Hin : In y (List.filter f l)).
    { apply filter_In. split; [|exact Hy].
      apply list_elem_of_In, list_elem_of_lookup. eauto. }
    destruct (List.filter f l); [destruct Hin | cbn in Hlen; lia].
  - injection Hj as ->. rewrite Hy in Hlen. cbn in Hlen.
    assert (Hin : In x (List.filter f l)).
    { apply filter_In. split; [|exact Hx].
      apply list_elem_of_In, list_elem_of_lookup. eauto. }
    destruct (List.filter f l); [destruct Hin | cbn in Hlen; lia].
  - f_equal. apply IH; try assumption.
    destruct (f a); cbn in Hlen; lia.
Qed.

Lemma download_continue_loadLock checkData sh sh' info :
  download_continue checkData sh = (sh', inr info) -> loadLock sh' = loadLock sh.
Proof.
  intros H. apply download_continue_started in H as [url ->]. reflexivity.
Qed.

(** What [getTagDataEvent] does to the guard up to its first suspension:
    it ends as the holder of a guard that was free, or leaves the guard as
    it found it. *)
Lemma checked_guard o checkData sh sh' pc' :
  loadLock sh = true ->
  getTagDataEvent_checked o checkData sh = (sh', pc') ->
  (holder pc' = true /\ loadLock sh' = true)
  \/ (holder pc' = false /\ loadLock sh' = false).
Proof.
  intros Hl. unfold getTagDataEvent_checked.
  destruct (download_continue checkData sh) as [sh1 [err|info]] eqn:D.
  - apply download_continue_rejected in D as [-> _].
    unfold getTagDataEvent_catch. intros [= <- <-].
    right. split; [apply finish_not_holder | reflexivity].
  - apply download_continue_loadLock in D. intros [= <- <-].
    left. split; [reflexivity | congruence].
Qed.

Lemma start_guard o time sh sh' pc' :
  getTagDataEvent_start o time sh = (sh', pc') ->
  (holder pc' = true /\ loadLock sh = false /\ loadLock sh' = true)
  \/ (holder pc' = false /\ loadLock sh' = loadLock sh).
Proof.
  unfold getTagDataEvent_start.
  destruct (download_acquire (initDownloadStatus sh)) as [sh2|] eqn:A.
  - assert (Hl : loadLock sh = false /\ loadLock sh2 = true).
    { unfold download_acquire in A.
      change (loadLock (initDownloadStatus sh)) with (loadLock sh) in A.
      destruct (loadLock sh); [discriminate|]. injection A as <-. auto. }
    destruct Hl as [Hl Hl2].
    destruct (checkVersion_start false time sh2) as [d|].
    + intros H. destruct (checked_guard _ _ _ _ _ Hl2 H) as [[H1 H2] | [H1 H2]];
        [left | right]; auto. split; congruence.
    + intros [= <- <-]. left. auto.
  - intros [= <- <-]. right. auto.
Qed.

Lemma autoUpdate_checked_guard version time sh sh' pc' :
  autoUpdate_checked version time sh = (sh', pc') ->
  (holder pc' = true /\ loadLock sh = false /\ loadLock sh' = true)
  \/ (holder pc' = false /\ loadLock sh' = loadLock sh).
Proof.
  unfold autoUpdate_checked. destruct version as [v|];
    [|intros [= <- <-]; right; auto].
  destruct (truthy (new v) && negb (String.eqb (new v) (old v)));
    [apply start_guard | intros [= <- <-]; right; auto].
Qed.

Lemma checkVersion_resume_loadLock time s w sh :
  match checkVersion_resume time s w sh with
  | Some (CheckWaits sh' _) | Some (CheckReturned sh' _) =>
      loadLock sh' = loadLock sh
  | _ => True
  end.
Proof.
  destruct w, s as [[?|[? ?]] | [?|?] | | | | |]; cbn; auto.
  pose proof (checkVersion_fetched_loadLock sha releaseLink o time sh) as E.
  destruct (checkVersion_fetched _ _ _ _ _). exact E.
Qed.

Lemma resume_holder_guard time s pc sh sh' pc' :
  holder pc = true -> loadLock sh = true ->
  resume time s pc sh = Some (sh', pc') ->
  holder pc' = true -> loadLock sh' = true.
Proof.
  intros Hh Hl Hr Hh'.
  destruct pc as [w | w | o w | o i | o | o | o since | r];
    try discriminate; cbn in Hr.
  - pose proof (checkVersion_resume_loadLock time s w sh) as Hc.
    destruct (checkVersion_resume time s w sh) as [[e | sh1 w1 | sh1 d]|];
      simplify_eq; try congruence.
    rewrite <- Hc in Hl.
    destruct (checked_guard _ _ _ _ _ Hl Hr) as [[_ H] | [H _]]; congruence.
  - destruct s; try discriminate.
    + injection Hr as <- <-. destruct lengthComputable; exact Hl.
    + unfold getTagDataEvent_downloaded in Hr. injection Hr as <- <-.
      discriminate.
    + unfold getTagDataEvent_catch in Hr. injection Hr as <- <-.
      rewrite finish_not_holder in Hh'. discriminate.
Qed.

Lemma resume_other_guard time s pc sh sh' pc' :
  holder pc = false ->
  resume time s pc sh = Some (sh', pc') ->
  (holder pc' = true /\ loadLock sh = false /\ loadLock sh' = true)
  \/ (holder pc' = false /\ loadLock sh' = loadLock sh).
Proof.
  intros Hh Hr.
  destruct pc as [w | w | o w | o i | o | o | o since | r];
    try discriminate; cbn in Hr.
  - pose proof (checkVersion_resume_loadLock time s w sh) as Hc.
    destruct (checkVersion_resume time s w sh) as [[e | sh1 w1 | sh1 d]|];
      simplify_eq; right; auto.
  - pose proof (checkVersion_resume_loadLock time s w sh) as Hc.
    destruct (checkVersion_resume time s w sh) as [[e | sh1 w1 | sh1 d]|];
      simplify_eq; try (right; auto; fail).
    rewrite <- Hc. now apply (autoUpdate_checked_guard d time).
  - unfold getTagDataEvent_catch, getTagDataEvent_updated in Hr.
    destruct s as [| | | | | [e|[sha releaseLink]] |]; simplify_eq;
      right; split; auto using finish_not_holder.
  - unfold getTagDataEvent_woken, downloadStatus_complete_member in Hr.
    destruct s; try discriminate.
    destruct (since + 2500 <=? time); simplify_eq.
    right. split; auto using finish_not_holder.
Qed.

Lemma spawn_guard time ev sh sh' pc' :
  spawn time ev sh = Some (sh', pc') ->
  (holder pc' = true /\ loadLock sh = false /\ loadLock sh' = true)
  \/ (holder pc' = false /\ loadLock sh' = loadLock sh).
Proof.
  destruct ev as [| force | | tid s]; cbn [spawn].
  - intros [= H]. now apply (start_guard FromGetTagData time).
  - destruct (checkVersion_start _ _ _); intros [= <- <-]; right; auto.
  - cbn. intros [= <- <-]. right. auto.
  - discriminate.
Qed.

Lemma step_guard_inv time ev st :
  guard_inv st -> guard_inv (step time ev st).
Proof.
  intros [Hfree Hone]. unfold step.
  destruct ev as [| force | | tid s].
  1-3: match goal with
       | |- context [spawn ?t ?e ?sh] =>
           destruct (spawn t e sh) as [[sh' pc']|] eqn:Hs; [|now split];
           apply spawn_guard in Hs as [(Hh & Hl & Hl') | (Hh & Hl')];
           unfold guard_inv; cbn [tasks shared];
           rewrite List.filter_app; cbn [List.filter]; rewrite Hh;
           [rewrite (Hfree Hl); cbn; split; [congruence | lia]
           |rewrite app_nil_r, Hl'; split; assumption]
       end.
  destruct (tasks st !! tid) as [pc|] eqn:Hpc; [|now split].
  destruct (resume time s pc (shared st)) as [[sh' pc']|] eqn:Hr; [|now split].
  destruct (filter_lookup_insert holder (tasks st) tid pc pc' Hpc) as [F1 F2].
  unfold guard_inv. cbn [tasks shared]. rewrite F2.
  destruct (holder pc) eqn:Hh.
  - rewrite F1 in Hone, Hfree. rewrite !length_app in Hone. cbn in Hone.
    assert (HA : List.filter holder (take tid (tasks st)) = [])
      by (destruct (List.filter holder (take tid (tasks st)));
          [reflexivity | cbn in Hone; lia]).
    assert (HB : List.filter holder (drop (S tid) (tasks st)) = [])
      by (destruct (List.filter holder (drop (S tid) (tasks st)));
          [reflexivity | cbn in Hone; lia]).
    rewrite HA, HB in *. cbn [app] in *.
    assert (Hl : loadLock (shared st) = true).
    { destruct (loadLock (shared st)); [reflexivity|].
      specialize (Hfree eq_refl). discriminate. }
    pose proof (resume_holder_guard _ _ _ _ _ _ Hh Hl Hr) as Hk.
    destruct (holder pc'); cbn; split; try lia; try reflexivity.
    intros Hf. rewrite (Hk eq_refl) in Hf. discriminate.
  - cbn [app] in F1.
    destruct (resume_other_guard _ _ _ _ _ _ Hh Hr) as [(Hh' & Hl & Hl') | (Hh' & Hl')];
      rewrite Hh'.
    + specialize (Hfree Hl). rewrite F1 in Hfree.
      apply app_eq_nil in Hfree as [-> ->]. cbn.
      split; [congruence | lia].
    + cbn [app]. rewrite <- F1, Hl'. split; assumption.
Qed.

Lemma exec_guard_inv evs st : guard_inv st -> guard_inv (exec evs st).
Proof.
  revert st. induction evs as [|[time ev] evs IH]; intros st H; [exact H|].
  apply (IH (step time ev st)), step_guard_inv, H.
Qed.

(** X1.  Whatever requests and answers arrive, at most one task is inside
    [download] with a live continuation or request, and while [loadLock] is
    unset none is: two distinct tasks are never both between the
    acquisition of line 117 and a release. *)
Theorem single_download_in_flight (evs : list (Z * Event)) :
  let st := exec evs initial in
  (forall i j pci pcj,
      tasks st !! i = Some pci -> tasks st !! j = Some pcj ->
      holder pci = true -> holder pcj = true -> i = j)
  /\ (loadLock (shared st) = false ->
      forall i pc, tasks st !! i = Some pc -> holder pc = false).
Proof.
  intros st.
  assert (Hinv : guard_inv st).
  { apply exec_guard_inv. split; [reflexivity | cbn; lia]. }
  destruct Hinv as [Hfree Hone]. split.
  - intros i j pci pcj Hi Hj Hhi Hhj.
    exact (filter_at_most_one holder _ i j pci pcj Hone Hi Hj Hhi Hhj).
  - intros Hl i pc Hi. specialize (Hfree Hl).
    destruct (holder pc) eqn:Hh; [|reflexivity].
    assert (Hin : In pc (List.filter holder (tasks st))).
    { apply filter_In. split; [|exact Hh].
      apply list_elem_of_In, list_elem_of_lookup. eauto. }
    rewrite Hfree in Hin. destruct Hin.
Qed.

Lemma single_download_in_flight_witness :
  tasks contended !! 0%nat = Some (PcDownloadCheck FromGetTagData AwaitStorage)
  /\ tasks contended !! 1%nat = Some (PcAbandoned FromGetTagData)
  /\ (forall j pc, tasks contended !! j = Some pc -> holder pc = true -> 0%nat = j).
Proof.
  split; [reflexivity|]. split; [reflexivity|].
  destruct (single_download_in_flight
              [ (1000, MsgGetTagData); (1000, MsgGetTagData) ]) as [H _].
  intros j pc Hj Hh.
  exact (H 0%nat j (PcDownloadCheck FromGetTagData AwaitStorage) pc
           eq_refl Hj eq_refl Hh).
Defined.

(** ** What changes [lastCheckData] *)

Lemma download_continue_lastCheckData checkData sh :
  lastCheckData (fst (download_continue checkData sh)) = lastCheckData sh.
Proof.
  unfold download_continue.
  destruct checkData as [[? ? ? ? ? [[? ? [l|]]|]]|]; try reflexivity.
  destruct (negb (truthy (asset_url (find_asset l)))); reflexivity.
Qed.

Lemma checked_lastCheckData o checkData sh :
  lastCheckData (fst (getTagDataEvent_checked o checkData sh)) = lastCheckData sh.
Proof.
  unfold getTagDataEvent_checked.
  pose proof (download_continue_lastCheckData checkData sh) as H.
  destruct (download_continue checkData sh) as [sh1 [err|info]]; exact H.
Qed.

Lemma start_lastCheckData o time sh :
  lastCheckData (fst (getTagDataEvent_start o time sh)) = lastCheckData sh.
Proof.
  unfold getTagDataEvent_start.
  destruct (download_acquire (initDownloadStatus sh)) as [sh2|] eqn:A;
    [|reflexivity].
  assert (E : lastCheckData sh2 = lastCheckData sh).
  { unfold download_acquire in A.
    destruct (loadLock (initDownloadStatus sh)); [discriminate|].
    injection A as <-. reflexivity. }
  destruct (checkVersion_start false time sh2) as [d|]; [|exact E].
  now rewrite checked_lastCheckData.
Qed.

Lemma autoUpdate_checked_lastCheckData version time sh :
  lastCheckData (fst (autoUpdate_checked version time sh)) = lastCheckData sh.
Proof.
  unfold autoUpdate_checked. destruct version as [v|]; [|reflexivity].
  destruct (truthy (new v) && negb (String.eqb (new v) (old v)));
    [apply start_lastCheckData | reflexivity].
Qed.

Lemma checkVersion_resume_lastCheckData time s w sh :
  match checkVersion_resume time s w sh with
  | Some (CheckWaits sh' _) => lastCheckData sh' = lastCheckData sh
  | Some (CheckReturned sh' _) =>
      check_data_step time (Some s) (lastCheckData sh) (lastCheckData sh')
  | _ => True
  end.
Proof.
  destruct w, s as [[?|[? ?]] | [?|?] | | | | |]; cbn; auto.
  unfold checkVersion_fetched. destruct o as [i|]; [|now left].
  destruct (truthy_opt (target_commitish i)) eqn:E; [|now left].
  right. left. exists i, sha, releaseLink. auto.
Qed.

Lemma resume_lastCheckData time s pc sh sh' pc' :
  resume time s pc sh = Some (sh', pc') ->
  check_data_step time (Some s) (lastCheckData sh) (lastCheckData sh').
Proof.
  intros Hr.
  destruct pc as [w | w | o w | o i | o | o | o since | r];
    try discriminate; cbn in Hr.
  - pose proof (checkVersion_resume_lastCheckData time s w sh) as Hc.
    destruct (checkVersion_resume time s w sh) as [[e | sh1 w1 | sh1 d]|];
      simplify_eq; [now left | left; congruence | exact Hc].
  - pose proof (checkVersion_resume_lastCheckData time s w sh) as Hc.
    destruct (checkVersion_resume time s w sh) as [[e | sh1 w1 | sh1 d]|];
      simplify_eq; [now left | left; congruence |].
    pose proof (autoUpdate_checked_lastCheckData d time sh1) as E.
    rewrite Hr in E. cbn in E. now rewrite E.
  - pose proof (checkVersion_resume_lastCheckData time s w sh) as Hc.
    destruct (checkVersion_resume time s w sh) as [[e | sh1 w1 | sh1 d]|];
      simplify_eq; [now left | left; congruence |].
    pose proof (checked_lastCheckData o d sh1) as E.
    rewrite Hr in E. cbn in E. now rewrite E.
  - destruct s; try discriminate.
    + injection Hr as <- <-. left. now destruct lengthComputable.
    + unfold getTagDataEvent_downloaded in Hr. injection Hr as <- <-. now left.
    + unfold getTagDataEvent_catch in Hr. injection Hr as <- <-. now left.
  - unfold getTagDataEvent_catch, getTagDataEvent_updated in Hr.
    destruct s as [| | | | | [e|[sha releaseLink]] |]; simplify_eq;
      [now left|].
    right. right. exists sha, releaseLink. split; reflexivity.
  - unfold getTagDataEvent_woken, downloadStatus_complete_member in Hr.
    destruct s; try discriminate.
    destruct (since + 2500 <=? time); simplify_eq. now left.
Qed.

Lemma spawn_lastCheckData time ev sh sh' pc' :
  spawn time ev sh = Some (sh', pc') -> lastCheckData sh' = lastCheckData sh.
Proof.
  destruct ev as [| force | | tid s]; cbn [spawn].
  - intros [= H]. pose proof (start_lastCheckData FromGetTagData time sh) as E.
    rewrite H in E. exact E.
  - destruct (checkVersion_start _ _ _); intros [= <- <-]; reflexivity.
  - cbn. intros [= <- <-]. reflexivity.
  - discriminate.
Qed.

Lemma step_lastCheckData time ev st :
  check_data_step time (signal_of ev)
    (lastCheckData (shared st)) (lastCheckData (shared (step time ev st))).
Proof.
  unfold step. destruct ev as [| force | | tid s].
  1-3: match goal with
       | |- context [spawn ?t ?e ?sh] =>
           destruct (spawn t e sh) as [[sh' pc']|] eqn:Hs; [|now left];
           left; exact (spawn_lastCheckData _ _ _ _ _ Hs)
       end.
  destruct (tasks st !! tid) as [pc|]; [|now left].
  destruct (resume time s pc (shared st)) as [[sh' pc']|] eqn:Hr; [|now left].
  exact (resume_lastCheckData _ _ _ _ _ _ Hr).
Qed.

(** X2.  In every state that can be reached, the cached release and the
    fields [new] and [newLink] of [lastCheckData] agree: either a release is
    cached, it carries a non-empty [target_commitish], and [new] and
    [newLink] are its version and its page; or none is cached and [new],
    [newLink] and [timestamp] still have their initial values. *)
Theorem lastCheckData_consistent (evs : list (Z * Event)) :
  check_consistent (lastCheckData (shared (exec evs initial))).
Proof.
  assert (H : forall st, check_consistent (lastCheckData (shared st)) ->
                         check_consistent (lastCheckData (shared (exec evs st)))).
  { induction evs as [|[time ev] evs IH]; intros st Hc; [exact Hc|].
    apply (IH (step time ev st)).
    destruct (step_lastCheckData time ev st)
      as [-> | [(i & sha & rl & _ & Hv & ->) | (sha & rl & _ & ->)]].
    - exact Hc.
    - unfold check_consistent. cbn.
      destruct (target_commitish i) as [c|]; [|discriminate].
      cbn in *. auto.
    - unfold check_consistent in *. cbn.
      destruct (githubRelease (lastCheckData (shared st))); exact Hc. }
  apply H. cbn. auto.
Qed.

(** X3.  One turn of the event loop changes [timestamp] or the cached
    release of [lastCheckData] only when it is the turn in which the feed
    answers with a document that carries a version: the stamp is then the
    clock of that turn and the cached release is that document.  No other
    request, answer, failure or timer touches them. *)
Theorem timestamp_changes_only_on_fetch (time : Z) (ev : Event) (st : State) :
  let d := lastCheckData (shared st) in
  let d' := lastCheckData (shared (step time ev st)) in
  timestamp d' <> timestamp d \/ githubRelease d' <> githubRelease d ->
  exists tid i,
    ev = Wake tid (FetchDone (inr (Some i)))
    /\ has_version (Some i) = true
    /\ timestamp d' = time
    /\ githubRelease d' = Some i.
Proof.
  intros d d' Hne. subst d d'.
  destruct (step_lastCheckData time ev st)
    as [E | [(i & sha & rl & Hs & Hv & E) | (sha & rl & _ & E)]];
    rewrite E in *.
  - destruct Hne as [Hne | Hne]; now destruct Hne.
  - destruct ev as [| | | tid s]; try discriminate.
    cbn in Hs. injection Hs as ->.
    exists tid, i. repeat split. exact Hv.
  - cbn in Hne. destruct Hne as [Hne | Hne]; now destruct Hne.
Qed.

Lemma timestamp_changes_only_on_fetch_witness :
  let st := exec [ (1000, MsgCheckVersion true);
                   (1001, Wake 0 (StorageDone (inr ("v1", "l1")))) ] initial in
  timestamp (lastCheckData (shared (step 1002 (Wake 0 (FetchDone (inr (Some release_v2)))) st)))
  = 1002.
Proof.
  intros st.
  destruct (timestamp_changes_only_on_fetch 1002
              (Wake 0 (FetchDone (inr (Some release_v2)))) st)
    as (tid & i & _ & _ & H & _).
  - left. vm_compute. discriminate.
  - exact H.
Defined.

(** ** The addresses that are asked *)

Lemma download_continue_started_url checkData sh sh' info :
  download_continue checkData sh = (sh', inr info) ->
  exists l a url,
    assets info = Some l /\ find_asset l = Some a
    /\ browser_download_url a = Some url /\ truthy url = true
    /\ sh' = start_transfer url sh
    /\ exists d, checkData = Some d /\ githubRelease d = Some info.
Proof.
  unfold download_continue.
  destruct checkData as [[o ol n nl ts [[tc hu [l|]]|]]|]; try discriminate.
  destruct (truthy (asset_url (find_asset l))) eqn:T; [|discriminate].
  cbn [negb]. intros [= <- <-].
  unfold asset_url in T |- *.
  destruct (find_asset l) as [a|] eqn:F; [|discriminate].
  destruct (browser_download_url a) as [u|] eqn:U; [|discriminate].
  cbn in T |- *. destruct (truthy u) eqn:Tu; [|discriminate].
  exists l, a, u. repeat split; eauto.
Qed.

Lemma safe_emit e sh :
  Forall effect_safe (effects sh) -> effect_safe e ->
  Forall effect_safe (effects (emit e sh)).
Proof.
  intros H He. cbn. apply Forall_app. split; [exact H | now constructor].
Qed.

Lemma safe_push data sh :
  Forall effect_safe (effects sh) ->
  Forall effect_safe (effects (pushDownloadStatus data sh)).
Proof.
  intros H. cbn. apply Forall_app. split; [exact H | now constructor].
Qed.

Lemma safe_catch o e sh :
  Forall effect_safe (effects sh) ->
  Forall effect_safe (effects (fst (getTagDataEvent_catch o e sh))).
Proof.
  intros H. cbn [getTagDataEvent_catch fst].
  apply safe_push, safe_emit; [exact H | exact I].
Qed.

Lemma safe_checked o checkData sh :
  Forall effect_safe (effects sh) ->
  Forall effect_safe (effects (fst (getTagDataEvent_checked o checkData sh))).
Proof.
  intros H. unfold getTagDataEvent_checked.
  destruct (download_continue checkData sh) as [sh1 [err|info]] eqn:D.
  - apply download_continue_rejected in D as [-> _]. now apply safe_catch.
  - apply download_continue_started_url in D
      as (l & a & url & _ & _ & _ & Hu & -> & _).
    cbn [fst]. unfold start_transfer, badgeLoading_set.
    apply safe_emit; [|exact I]. apply safe_push, safe_emit; [exact H | exact Hu].
Qed.

Lemma safe_start o time sh :
  Forall effect_safe (effects sh) ->
  Forall effect_safe (effects (fst (getTagDataEvent_start o time sh))).
Proof.
  intros H. unfold getTagDataEvent_start.
  assert (H1 : Forall effect_safe (effects (initDownloadStatus sh))).
  { cbn. apply Forall_app. split; [exact H | now constructor]. }
  destruct (download_acquire (initDownloadStatus sh)) as [sh2|] eqn:A;
    [|exact H1].
  assert (H2 : Forall effect_safe (effects sh2)).
  { unfold download_acquire in A.
    destruct (loadLock (initDownloadStatus sh)); [discriminate|].
    injection A as <-. unfold badgeLoading_set.
    apply safe_push, safe_emit; [exact H1 | exact I]. }
  destruct (checkVersion_start false time sh2) as [d|].
  - now apply safe_checked.
  - cbn [fst]. apply safe_emit; [exact H2 | exact I].
Qed.

Lemma safe_autoUpdate_checked version time sh :
  Forall effect_safe (effects sh) ->
  Forall effect_safe (effects (fst (autoUpdate_checked version time sh))).
Proof.
  intros H. unfold autoUpdate_checked. destruct version as [v|]; [|exact H].
  destruct (truthy (new v) && negb (String.eqb (new v) (old v)));
    [now apply safe_start | exact H].
Qed.

Lemma safe_checkVersion_resume time s w sh :
  Forall effect_safe (effects sh) ->
  match checkVersion_resume time s w sh with
  | Some (CheckWaits sh' _) | Some (CheckReturned sh' _) =>
      Forall effect_safe (effects sh')
  | _ => True
  end.
Proof.
  intros H. destruct w, s as [[?|[? ?]] | [?|?] | | | | |]; cbn; auto.
  - apply Forall_app. split; [exact H | now constructor].
  - unfold checkVersion_fetched. destruct o as [i|]; [|exact H].
    destruct (truthy_opt (target_commitish i)); exact H.
Qed.

Lemma safe_resume time s pc sh sh' pc' :
  Forall effect_safe (effects sh) ->
  resume time s pc sh = Some (sh', pc') ->
  Forall effect_safe (effects sh').
Proof.
  intros H Hr.
  destruct pc as [w | w | o w | o i | o | o | o since | r];
    try discriminate; cbn in Hr.
  - pose proof (safe_checkVersion_resume time s w sh H) as Hc.
    destruct (checkVersion_resume time s w sh) as [[e | sh1 w1 | sh1 d]|];
      simplify_eq; auto.
  - pose proof (safe_checkVersion_resume time s w sh H) as Hc.
    destruct (checkVersion_resume time s w sh) as [[e | sh1 w1 | sh1 d]|];
      simplify_eq; auto.
    pose proof (safe_autoUpdate_checked d time sh1 Hc) as Hk.
    now rewrite Hr in Hk.
  - pose proof (safe_checkVersion_resume time s w sh H) as Hc.
    destruct (checkVersion_resume time s w sh) as [[e | sh1 w1 | sh1 d]|];
      simplify_eq; auto.
    pose proof (safe_checked o d sh1 Hc) as Hk. now rewrite Hr in Hk.
  - destruct s; try discriminate.
    + injection Hr as <- <-. unfold xhr_onprogress, badgeLoading_set.
      destruct lengthComputable; [|exact H].
      apply safe_emit; [|exact I]. now apply safe_push.
    + unfold getTagDataEvent_downloaded in Hr. injection Hr as <- <-.
      apply safe_emit; [|exact I]. unfold xhr_onload, badgeLoading_set.
      change (Forall effect_safe
                (effects (emit (BadgeSet "100" "#4A90E2" (Some 1))
                            (pushDownloadStatus
                               {| p_run := None; p_progress := Some (Int 100);
                                  p_info := Some "下载完成"; p_complete := None;
                                  p_error := None |} sh)))).
      apply safe_emit; [|exact I]. now apply safe_push.
    + assert (E : getTagDataEvent_catch o (Rejection None) (xhr_onerror sh)
                  = (sh', pc')) by congruence.
      pose proof (safe_catch o (Rejection None) (xhr_onerror sh)) as Hk.
      rewrite E in Hk. apply Hk. unfold xhr_onerror, badgeLoading_set.
      apply safe_emit; [exact H | exact I].
  - destruct s as [| | | | | [e|[sha releaseLink]] |]; try discriminate.
    + assert (E : getTagDataEvent_catch o e sh = (sh', pc')) by congruence.
      pose proof (safe_catch o e sh H) as Hk. now rewrite E in Hk.
    + unfold getTagDataEvent_updated in Hr. injection Hr as <- <-.
      change (Forall effect_safe
                (effects (pushDownloadStatus
                            {| p_run := Some true; p_progress := Some (Int 100);
                               p_info := Some "更新完成"; p_complete := Some true;
                               p_error := None |}
                            (badgeLoading_set "OK" "#00C801" None sh)))).
      apply safe_push. unfold badgeLoading_set.
      apply safe_emit; [exact H | exact I].
  - destruct s; try discriminate.
    destruct (since + 2500 <=? time); [|discriminate].
    unfold getTagDataEvent_woken, downloadStatus_complete_member in Hr.
    injection Hr as <- <-.
    change (Forall effect_safe
              (effects (downloadStatus_next defaultStatus
                          (emit (BadgeSet "" "#4A90E2" None) sh)))).
    cbn. apply Forall_app. split; [|now constructor].
    apply Forall_app. split; [exact H | now constructor].
Qed.

Lemma safe_spawn time ev sh sh' pc' :
  Forall effect_safe (effects sh) ->
  spawn time ev sh = Some (sh', pc') ->
  Forall effect_safe (effects sh').
Proof.
  intros H. destruct ev as [| force | | tid s]; cbn [spawn].
  - intros [= E]. pose proof (safe_start FromGetTagData time sh H) as Hk.
    now rewrite E in Hk.
  - destruct (checkVersion_start _ _ _); intros [= <- <-];
      [exact H | apply safe_emit; [exact H | exact I]].
  - cbn. intros [= <- <-]. apply safe_emit; [exact H | exact I].
  - discriminate.
Qed.

Lemma safe_step time ev st :
  Forall effect_safe (effects (shared st)) ->
  Forall effect_safe (effects (shared (step time ev st))).
Proof.
  intros H. unfold step. destruct ev as [| force | | tid s].
  1-3: match goal with
       | |- context [spawn ?t ?e ?sh] =>
           destruct (spawn t e sh) as [[sh' pc']|] eqn:Hs; [|exact H];
           exact (safe_spawn _ _ _ _ _ H Hs)
       end.
  destruct (tasks st !! tid) as [pc|]; [|exact H].
  destruct (resume time s pc (shared st)) as [[sh' pc']|] eqn:Hr; [|exact H].
  exact (safe_resume _ _ _ _ _ _ H Hr).
Qed.

(** X4.  Over any sequence of requests and answers the coordinator asks
    the network for two things only: the fixed address of the release feed,
    and, for the bundle, an address that is not empty.  A transfer is never
    started for an empty URL. *)
Theorem requests_are_well_addressed (evs : list (Z * Event)) :
  let es := effects (shared (exec evs initial)) in
  (forall u, In (Fetch u) es -> u = githubDownloadUrl)
  /\ (forall u, In (XhrSend u) es -> u <> "").
Proof.
  intros es.
  assert (H : Forall effect_safe es).
  { subst es.
    assert (G : forall st, Forall effect_safe (effects (shared st)) ->
                           Forall effect_safe (effects (shared (exec evs st)))).
    { induction evs as [|[time ev] evs IH]; intros st Hs; [exact Hs|].
      apply (IH (step time ev st)), safe_step, Hs. }
    apply G. repeat constructor. }
  rewrite List.Forall_forall in H. split.
  - intros u Hu. exact (H _ Hu).
  - intros u Hu ->. specialize (H _ Hu). discriminate.
Qed.

Lemma requests_are_well_addressed_witness :
  In (XhrSend "https://x/db.gz") (effects (shared (exec successful_update initial)))
  /\ "https://x/db.gz" <> "".
Proof.
  assert (Hin : In (XhrSend "https://x/db.gz")
                  (effects (shared (exec successful_update initial))))
    by (vm_compute; tauto).
  split; [exact Hin|].
  destruct (requests_are_well_addressed successful_update) as [_ H].
  exact (H _ Hin).
Defined.

(** ** After the version check of a download has thrown *)

Lemma xhr_sends_app es1 es2 : xhr_sends (es1 ++ es2) = xhr_sends es1 ++ xhr_sends es2.
Proof. apply omap_app. Qed.

Ltac xhr_crush :=
  unfold xhr_sends; cbn; rewrite ?omap_app; cbn; rewrite ?app_nil_r; reflexivity.

Lemma getTagDataEvent_catch_xhr o e sh :
  xhr_sends (effects (fst (getTagDataEvent_catch o e sh))) = xhr_sends (effects sh).
Proof. xhr_crush. Qed.

Lemma checkVersion_resume_xhr time s w sh :
  match checkVersion_resume time s w sh with
  | Some (CheckWaits sh' _) | Some (CheckReturned sh' _) =>
      xhr_sends (effects sh') = xhr_sends (effects sh)
  | _ => True
  end.
Proof.
  destruct w, s as [[?|[? ?]] | [?|?] | | | | |]; cbn; auto.
  - xhr_crush.
  - unfold checkVersion_fetched. destruct o as [i|]; [|reflexivity].
    destruct (truthy_opt (target_commitish i)); reflexivity.
Qed.

Lemma start_locked_xhr o time sh :
  loadLock sh = true ->
  xhr_sends (effects (fst (getTagDataEvent_start o time sh)))
  = xhr_sends (effects sh).
Proof.
  intros Hl. rewrite (getTagDataEvent_start_locked o time sh Hl).
  xhr_crush.
Qed.

Lemma resume_locked_xhr time s pc sh sh' pc' :
  loadLock sh = true -> holder pc = false ->
  resume time s pc sh = Some (sh', pc') ->
  xhr_sends (effects sh') = xhr_sends (effects sh).
Proof.
  intros Hl Hh Hr.
  destruct pc as [w | w | o w | o i | o | o | o since | r];
    try discriminate; cbn in Hr.
  - pose proof (checkVersion_resume_xhr time s w sh) as Hc.
    destruct (checkVersion_resume time s w sh) as [[e | sh1 w1 | sh1 d]|];
      simplify_eq; auto.
  - pose proof (checkVersion_resume_xhr time s w sh) as Hc.
    pose proof (checkVersion_resume_loadLock time s w sh) as Hk.
    destruct (checkVersion_resume time s w sh) as [[e | sh1 w1 | sh1 d]|];
      simplify_eq; auto.
    rewrite <- Hc. rewrite <- Hk in Hl.
    unfold autoUpdate_checked in Hr. destruct d as [v|]; [|now simplify_eq].
    destruct (truthy (new v) && negb (String.eqb (new v) (old v)));
      [|now simplify_eq].
    pose proof (start_locked_xhr FromAutoUpdate time sh1 Hl) as E.
    now rewrite Hr in E.
  - destruct s as [| | | | | [e|[sha releaseLink]] |]; try discriminate.
    + assert (E : getTagDataEvent_catch o e sh = (sh', pc')) by congruence.
      pose proof (getTagDataEvent_catch_xhr o e sh) as Hk. now rewrite E in Hk.
    + unfold getTagDataEvent_updated in Hr. injection Hr as <- <-.
      xhr_crush.
  - destruct s; try discriminate.
    destruct (since + 2500 <=? time); [|discriminate].
    unfold getTagDataEvent_woken, downloadStatus_complete_member in Hr.
    injection Hr as <- <-.
    xhr_crush.
Qed.

Lemma spawn_locked_xhr time ev sh sh' pc' :
  loadLock sh = true ->
  spawn time ev sh = Some (sh', pc') ->
  xhr_sends (effects sh') = xhr_sends (effects sh).
Proof.
  intros Hl. destruct ev as [| force | | tid s]; cbn [spawn].
  - intros [= E]. pose proof (start_locked_xhr FromGetTagData time sh Hl) as Hk.
    now rewrite E in Hk.
  - destruct (checkVersion_start _ _ _); intros [= <- <-]; [reflexivity|].
    xhr_crush.
  - cbn. intros [= <- <-]. xhr_crush.
  - discriminate.
Qed.

Lemma step_leaked_xhr time ev st :
  guard_leaked st ->
  xhr_sends (effects (shared (step time ev st)))
  = xhr_sends (effects (shared st)).
Proof.
  intros [Hl Hf]. unfold step. destruct ev as [| force | | tid s].
  1-3: match goal with
       | |- context [spawn ?t ?e ?sh] =>
           destruct (spawn t e sh) as [[sh' pc']|] eqn:Hs; [|reflexivity];
           exact (spawn_locked_xhr _ _ _ _ _ Hl Hs)
       end.
  destruct (tasks st !! tid) as [pc|] eqn:Hpc; [|reflexivity].
  destruct (resume time s pc (shared st)) as [[sh' pc']|] eqn:Hr; [|reflexivity].
  rewrite Forall_lookup in Hf.
  exact (resume_locked_xhr _ _ _ _ _ _ Hl (Hf tid pc Hpc) Hr).
Qed.

Lemma exec_leaked_xhr evs st :
  guard_leaked st ->
  xhr_sends (effects (shared (exec evs st))) = xhr_sends (effects (shared st)).
Proof.
  revert st. induction evs as [|[time ev] evs IH]; intros st H; [reflexivity|].
  change (exec ((time, ev) :: evs) st) with (exec evs (step time ev st)).
  rewrite (IH (step time ev st) (step_guard_leaked time ev st H)).
  now apply step_leaked_xhr.
Qed.

Lemma filter_nil_Forall {A} (f : A -> bool) (l : list A) :
  List.filter f l = [] -> Forall (fun x => f x = false) l.
Proof.
  induction l as [|a l IH]; cbn; [constructor|].
  destruct (f a) eqn:E; [discriminate|].
  intros H. constructor; auto.
Qed.

(** The turn in which the check of a download throws leaves the guard
    leaked. *)
Lemma check_failure_leaks time tid o w s st :
  guard_inv st ->
  tasks st !! tid = Some (PcDownloadCheck o w) ->
  (exists e, checkVersion_resume time s w (shared st) = Some (CheckThrew e)) ->
  let st1 := step time (Wake tid s) st in
  guard_leaked st1 /\ tasks st1 !! tid = Some (PcAbandoned o).
Proof.
  intros [Hfree Hone] Hpc [e He] st1. subst st1.
  unfold step. rewrite Hpc. cbn [resume]. rewrite He.
  destruct (filter_lookup_insert holder (tasks st) tid _ (PcAbandoned o) Hpc)
    as [F1 F2].
  cbn [holder] in F1, F2.
  rewrite F1 in Hone, Hfree. rewrite !length_app in Hone. cbn in Hone.
  assert (HA : List.filter holder (take tid (tasks st)) = [])
    by (destruct (List.filter holder (take tid (tasks st)));
        [reflexivity | cbn in Hone; lia]).
  assert (HB : List.filter holder (drop (S tid) (tasks st)) = [])
    by (destruct (List.filter holder (drop (S tid) (tasks st)));
        [reflexivity | cbn in Hone; lia]).
  rewrite HA, HB in *. cbn [app] in *.
  split; [split|].
  - cbn. destruct (loadLock (shared st)); [reflexivity|].
    specialize (Hfree eq_refl). discriminate.
  - cbn [tasks]. apply filter_nil_Forall. exact F2.
  - cbn [tasks]. apply list_lookup_insert_eq. eapply lookup_lt_Some; eauto.
Qed.

(** X5.  In any reachable state, when the storage read or the request of
    the version check made inside [download] fails, the guard is never
    released again: whatever is requested afterwards, [loadLock] stays set,
    the task stays at line 51, and no bundle transfer is ever started. *)
Theorem no_transfer_after_check_failure
    (evs evs' : list (Z * Event)) (time : Z) (tid : nat) (o : Origin)
    (w : CheckWait) (e : Thrown) :
  tasks (exec evs initial) !! tid = Some (PcDownloadCheck o w) ->
  let s := match w with
           | AwaitStorage => StorageDone (inl e)
           | AwaitFetch _ _ => FetchDone (inl e)
           end in
  let st1 := step time (Wake tid s) (exec evs initial) in
  loadLock (shared (exec evs' st1)) = true
  /\ tasks (exec evs' st1) !! tid = Some (PcAbandoned o)
  /\ xhr_sends (effects (shared (exec evs' st1)))
     = xhr_sends (effects (shared st1)).
Proof.
  intros Hpc s st1.
  assert (Hinv : guard_inv (exec evs initial)).
  { apply exec_guard_inv. split; [reflexivity | cbn; lia]. }
  destruct (check_failure_leaks time tid o w s _ Hinv Hpc) as [Hleak Hab].
  { exists e. subst s. destruct w; reflexivity. }
  fold st1 in Hleak, Hab.
  split; [|split].
  - apply (exec_guard_leaked evs' st1 Hleak).
  - now apply exec_keeps_abandoned.
  - now apply exec_leaked_xhr.
Qed.

Lemma no_transfer_after_check_failure_witness :
  let st1 := step 1001 (Wake 0 (StorageDone (inl (Rejection None))))
               (exec [ (1000, MsgGetTagData) ] initial) in
  let later := exec [ (2000, MsgGetTagData); (3000, MsgAutoUpdate) ] st1 in
  loadLock (shared later) = true
  /\ xhr_sends (effects (shared later)) = [].
Proof.
  intros st1 later.
  destruct (no_transfer_after_check_failure
              [ (1000, MsgGetTagData) ]
              [ (2000, MsgGetTagData); (3000, MsgAutoUpdate) ]
              1001 0%nat FromGetTagData AwaitStorage (Rejection None) eq_refl)
    as (H1 & _ & H3).
  split; [exact H1 | exact H3].
Defined.

(** ** The ends of the progress scale *)

Lemma round_Qeq (x y : Q) : (x == y)%Q -> (Float64.round x == Float64.round y)%Q.
Proof.
  intros E. apply Qle_antisym; apply round_mono; rewrite E; apply Qle_refl.
Qed.

(** X6.  For a positive [total], an event that reports all bytes publishes
    exactly 100 and one that reports none publishes 0, whatever rounding
    does in between.  For a [total] of zero the value is not a number at
    all: [NaN] when nothing is loaded, [Infinity] otherwise. *)
Theorem percent_ends (loaded total : N) :
  ((0 < total)%N -> percent total total = Int 100 /\ percent 0 total = Int 0)
  /\ percent 0 0 = NaN
  /\ ((0 < loaded)%N -> percent loaded 0 = Infinity).
Proof.
  split; [|split].
  - intros Ht. rewrite !(percent_finite _ _ Ht).
    pose proof (of_N_pos total Ht) as Hp.
    assert (H100 : (Float64.of_N 100 == 100)%Q) by apply round_100.
    split; [|reflexivity]. f_equal.
    + assert (Hd : (Float64.div (Float64.of_N total) (Float64.of_N total) == 1)%Q).
      { unfold Float64.div. apply Qeq_trans with (Float64.round 1).
        - apply round_Qeq. field. intros E. rewrite E in Hp. now apply Hp.
        - apply round_1. }
      assert (Hm : (Float64.mul
                      (Float64.div (Float64.of_N total) (Float64.of_N total))
                      (Float64.of_N 100) == 100)%Q).
      { unfold Float64.mul. apply Qeq_trans with (Float64.round 100).
        - apply round_Qeq. rewrite Hd, H100. ring.
        - apply round_100. }
      rewrite Hm. reflexivity.
  - reflexivity.
  - intros Hl. unfold percent. cbn.
    destruct (N.eqb_spec loaded 0); [lia | reflexivity].
Qed.

Lemma percent_ends_witness :
  percent 123456789 123456789 = Int 100 /\ percent 7 0 = Infinity.
Proof.
  destruct (percent_ends 7 123456789) as (H1 & _ & H3).
  split; [apply H1; reflexivity | apply H3; reflexivity].
Defined.

(** ** Failures caught by [getTagDataEvent] *)

Lemma failure_info_truthy (err : Thrown) : truthy (failure_info err) = true.
Proof.
  unfold failure_info.
  destruct (message_of err) as [m|]; cbn; [|reflexivity].
  destruct (truthy m) eqn:E; [exact E | reflexivity].
Qed.

(** X7.  Whatever [getTagDataEvent] catches, the status it publishes has
    [run] unset, [error] set and a text that is never empty: the message of
    the error when it has a non-empty one, the fixed text of line 68
    otherwise.  [progress] and [complete] are left as they were, the guard
    is not touched, and the error is logged. *)
Theorem caught_failure_status (o : Origin) (err : Thrown) (sh : Shared) :
  let sh' := fst (getTagDataEvent_catch o err sh) in
  let s := downloadStatus sh' in
  run s = false /\ error s = true
  /\ info s <> ""
  /\ (forall m, message_of err = Some m -> m <> "" -> info s = m)
  /\ (message_of err = None \/ message_of err = Some "" -> info s = "更新失败")
  /\ progress s = progress (downloadStatus sh)
  /\ complete s = complete (downloadStatus sh)
  /\ loadLock sh' = loadLock sh
  /\ effects_since sh sh' = [LogError err; Broadcast s].
Proof.
  cbv zeta. cbn [getTagDataEvent_catch fst].
  split; [reflexivity|]. split; [reflexivity|]. split; [|split; [|split]].
  - cbn. intros E. pose proof (failure_info_truthy err) as T.
    rewrite E in T. discriminate.
  - intros m Hm Hne. cbn. unfold failure_info. rewrite Hm. cbn.
    unfold truthy. destruct (String.eqb_spec m ""); [contradiction | reflexivity].
  - intros [Hm | Hm]; cbn; unfold failure_info; rewrite Hm; reflexivity.
  - split; [reflexivity|]. split; [reflexivity|]. split; [reflexivity|].
    apply effects_since_app. cbn. now rewrite <- app_assoc.
Qed.

Lemma caught_failure_status_witness :
  info (downloadStatus (fst (getTagDataEvent_catch FromGetTagData (Error "")
                               (shared initial)))) = "更新失败"
  /\ info (downloadStatus (fst (getTagDataEvent_catch FromGetTagData
                                  AssetUrlMissing (shared initial))))
     = "无法获取下载地址".
Proof.
  split.
  - destruct (caught_failure_status FromGetTagData (Error "") (shared initial))
      as (_ & _ & _ & _ & H & _).
    apply H. right. reflexivity.
  - destruct (caught_failure_status FromGetTagData AssetUrlMissing (shared initial))
      as (_ & _ & _ & H & _).
    apply (H "无法获取下载地址"); [reflexivity | discriminate].
Defined.

(** ** What the listener of [auto-update] answers once the update runs *)




(** ** A request for an update while the guard is held *)

(** X9.  A request for an update that arrives while the guard is held is
    refused, but not without trace: line 49 has already run, so the status
    is replaced by the idle one and broadcast, wiping what the running
    download had published.  The guard stays held, the tasks that existed
    are untouched, and the new task never leaves line 51. *)
Theorem refused_request_resets_status (time : Z) (st : State) :
  loadLock (shared st) = true ->
  let st' := step time MsgGetTagData st in
  downloadStatus (shared st') = defaultStatus
  /\ effects_since (shared st) (shared st') = [Broadcast defaultStatus]
  /\ loadLock (shared st') = true
  /\ lastCheckData (shared st') = lastCheckData (shared st)
  /\ tasks st' = tasks st ++ [PcAbandoned FromGetTagData].
Proof.
  intros Hl st'. subst st'. unfold step. cbn [spawn].
  rewrite (getTagDataEvent_start_locked FromGetTagData time (shared st) Hl).
  cbn. repeat split; try assumption.
  apply effects_since_app. reflexivity.
Qed.

Lemma refused_request_resets_status_witness :
  let st := exec (firstn 4 successful_update) initial in
  downloadStatus (shared st)
  = {| run := true; progress := Int 50; info := "50%";
       complete := false; error := false |}
  /\ downloadStatus (shared (step 1004 MsgGetTagData st)) = defaultStatus.
Proof.
  intros st. split; [reflexivity|].
  destruct (refused_request_resets_status 1004 st eq_refl) as [H _].
  exact H.
Defined.

(** ** Version checks beside a running update *)

(** X10.  A [check-version] call never disturbs an update: neither the
    turn in which it is requested nor any turn in which it is resumed
    changes [loadLock] or the status, starts a transfer, or touches a task
    other than its own. *)
Theorem check_version_is_unobtrusive (time : Z) (ev : Event) (st : State) :
  (exists force, ev = MsgCheckVersion force)
  \/ (exists tid s w, ev = Wake tid s /\ tasks st !! tid = Some (PcCheck w)) ->
  let st' := step time ev st in
  loadLock (shared st') = loadLock (shared st)
  /\ downloadStatus (shared st') = downloadStatus (shared st)
  /\ xhr_sends (effects (shared st')) = xhr_sends (effects (shared st))
  /\ (forall j pc, tasks st !! j = Some pc -> (forall w, pc <> PcCheck w) ->
                   tasks st' !! j = Some pc).
Proof.
  intros [[force ->] | (tid & s & w & -> & Hpc)] st'; subst st'; unfold step.
  - cbn [spawn].
    destruct (checkVersion_start force time (shared st)); cbn [shared tasks].
    + repeat split. intros j pc Hj _. now apply lookup_app_l_Some.
    + repeat split; [xhr_crush|]. intros j pc Hj _. now apply lookup_app_l_Some.
  - rewrite Hpc. cbn [resume].
    pose proof (checkVersion_resume_loadLock time s w (shared st)) as Hl.
    pose proof (checkVersion_resume_status time s w (shared st)) as Hs.
    pose proof (checkVersion_resume_xhr time s w (shared st)) as Hx.
    assert (Hother : forall pc' j pc, tasks st !! j = Some pc ->
                       (forall w0, pc <> PcCheck w0) ->
                       <[tid:=pc']> (tasks st) !! j = Some pc).
    { intros pc' j pc Hj Hne. rewrite list_lookup_insert_ne; [exact Hj|].
      intros ->. rewrite Hpc in Hj. injection Hj as <-. now apply (Hne w). }
    destruct (checkVersion_resume time s w (shared st))
      as [[e | sh1 w1 | sh1 d]|]; cbn [shared tasks]; repeat split; auto.
Qed.

Lemma check_version_is_unobtrusive_witness :
  let st := exec (firstn 4 successful_update) initial in
  downloadStatus (shared (step 1004 (MsgCheckVersion true) st))
  = downloadStatus (shared st)
  /\ tasks (step 1004 (MsgCheckVersion true) st) !! 0%nat = tasks st !! 0%nat.
Proof.
  intros st.
  destruct (check_version_is_unobtrusive 1004 (MsgCheckVersion true) st)
    as (_ & H2 & _ & H4).
  - left. eexists. reflexivity.
  - split; [exact H2|].
    rewrite (H4 0%nat (PcTransfer FromGetTagData release_v2));
      [reflexivity | reflexivity | discriminate].
Defined.

(** ** Whole runs *)

Lemma step_wake_last time s (l : list Pc) pc sh sh' pc' :
  resume time s pc sh = Some (sh', pc') ->
  step time (Wake (length l) s) {| shared := sh; tasks := l ++ [pc] |}
  = {| shared := sh'; tasks := l ++ [pc'] |}.
Proof.
  intros H. unfold step. cbn [tasks shared].
  rewrite list_lookup_middle by reflexivity. rewrite H. f_equal.
  rewrite insert_app_r_alt by lia. now rewrite Nat.sub_diag.
Qed.

(** X11.  A forced check is never served from the cache.  From any state
    it reads the storage and asks the feed once, and when the document
    carries a version it stores and returns a record made of the stored
    identifiers, the document's version and page, and the clock of the
    answer; the guard and the status are not touched.  From then on a
    non-forced check is served from that record up to and including 60,000
    ms after the answer, and goes to the network again after that. *)
Theorem forced_check_then_cache
    (st : State) (t0 t1 t2 : Z) (sha releaseLink : string) (info : Release) :
  truthy_opt (target_commitish info) = true ->
  let st' := exec (forced_check_run st t0 t1 t2 sha releaseLink (Some info)) st in
  let d := {| old := sha; oldLink := releaseLink;
              new := default "" (target_commitish info);
              newLink := html_url info; timestamp := t2;
              githubRelease := Some info |} in
  lastCheckData (shared st') = d
  /\ tasks st' = tasks st ++ [PcDone (Returned (VCheck (Some d)))]
  /\ effects_since (shared st) (shared st') = [StorageGet; Fetch githubDownloadUrl]
  /\ loadLock (shared st') = loadLock (shared st)
  /\ downloadStatus (shared st') = downloadStatus (shared st)
  /\ (forall t, t - t2 <= 60000 -> checkVersion_start false t (shared st') = Cached d)
  /\ (forall t, 60000 < t - t2 -> checkVersion_start false t (shared st') = MustFetch).
Proof.
  intros Hv st' d. destruct st as [sh l].
  assert (E : st' = {| shared := lastCheckData_next d
                                   (emit (Fetch githubDownloadUrl) (emit StorageGet sh));
                       tasks := l ++ [PcDone (Returned (VCheck (Some d)))] |}).
  { subst st'. unfold forced_check_run, exec. cbn [fold_left fst snd tasks].
    change (step t0 (MsgCheckVersion true) {| shared := sh; tasks := l |})
      with {| shared := emit StorageGet sh; tasks := l ++ [PcCheck AwaitStorage] |}.
    rewrite (step_wake_last t1 (StorageDone (inr (sha, releaseLink))) l
               (PcCheck AwaitStorage) (emit StorageGet sh)
               (emit (Fetch githubDownloadUrl) (emit StorageGet sh))
               (PcCheck (AwaitFetch sha releaseLink)) eq_refl).
    apply step_wake_last. cbn. rewrite Hv. reflexivity. }
  rewrite E. cbn [shared tasks].
  split; [reflexivity|]. split; [reflexivity|]. split.
  { apply effects_since_app. cbn. now rewrite <- app_assoc. }
  split; [reflexivity|]. split; [reflexivity|]. split.
  - intros t Ht. unfold checkVersion_start, rate_limited. cbn.
    destruct (Z.leb_spec (t - t2) (1000 * 60)); [reflexivity | lia].
  - intros t Ht. unfold checkVersion_start, rate_limited. cbn.
    destruct (Z.leb_spec (t - t2) (1000 * 60)); [lia | reflexivity].
Qed.

Lemma forced_check_then_cache_witness :
  let st' := exec (forced_check_run initial 1000 1001 1002 "v1" "l1"
                     (Some release_v2)) initial in
  new (lastCheckData (shared st')) = "v2"
  /\ checkVersion_start false 61002 (shared st') = Cached (lastCheckData (shared st'))
  /\ checkVersion_start false 61003 (shared st') = MustFetch.
Proof.
  intros st'.
  destruct (forced_check_then_cache initial 1000 1001 1002 "v1" "l1" release_v2
              eq_refl) as (H1 & _ & _ & _ & _ & H6 & H7).
  fold st' in H1, H6, H7.
  split; [rewrite H1; reflexivity|]. split.
  - rewrite H1. apply H6. vm_compute. discriminate.
  - apply H7. reflexivity.
Defined.

Lemma start_acquires o time sh :
  loadLock sh = false ->
  rate_limited time (lastCheckData sh) = false ->
  getTagDataEvent_start o time sh
  = (emit StorageGet
       (pushDownloadStatus
          {| p_run := Some true; p_progress := None; p_info := Some "加载中";
             p_complete := None; p_error := None |}
          (badgeLoading_set "" "#4A90E2" (Some 2)
             (set_loadLock true (initDownloadStatus sh)))),
     PcDownloadCheck o AwaitStorage).
Proof.
  intros Hl Hr. unfold getTagDataEvent_start, download_acquire.
  change (loadLock (initDownloadStatus sh)) with (loadLock sh). rewrite Hl.
  unfold checkVersion_start. cbn [negb andb].
  match goal with
  | |- context [rate_limited time (lastCheckData ?x)] =>
      change (lastCheckData x) with (lastCheckData sh)
  end.
  now rewrite Hr.
Qed.

Lemma download_continue_bundle d info l a u sh :
  githubRelease d = Some info -> assets info = Some l ->
  find_asset l = Some a -> browser_download_url a = Some u -> truthy u = true ->
  download_continue (Some d) sh = (start_transfer u sh, inr info).
Proof.
  intros Hr Ha Hf Hu Ht.
  destruct d as [o ol n nl ts r]. cbn in Hr. subst r.
  destruct info as [tc hu asl]. cbn in Ha. subst asl.
  cbn. rewrite Hf. cbn. rewrite Hu. cbn. rewrite Ht. cbn. now rewrite Ht.
Qed.

(** X12.  A whole update, from any state in which the guard is free and
    the rate limit does not apply: when the feed answers with a release
    that carries a version and a bundle with a URL, the transfer loads and
    the database accepts it, then exactly one transfer has been started,
    for that URL; the loaded bytes and the page of the release have been
    handed to the database; the guard is free again; [lastCheckData] holds
    the release with the identifiers the database now reports as [old]; and
    the status is [{run: true, progress: 100, complete: true, error: false}]
    while the task sleeps at line 61. *)
Theorem update_carried_through
    (st : State) (t0 t1 t2 t3 t4 : Z) (sha releaseLink : string)
    (info : Release) (l : list Asset) (a : Asset) (u : string)
    (response : ArrayBuffer) (sha' releaseLink' : string) :
  loadLock (shared st) = false ->
  rate_limited t0 (lastCheckData (shared st)) = false ->
  truthy_opt (target_commitish info) = true ->
  assets info = Some l ->
  find_asset l = Some a ->
  browser_download_url a = Some u ->
  truthy u = true ->
  let st' := exec (update_run st t0 t1 t2 t3 t4 sha releaseLink info response
                     sha' releaseLink') st in
  tasks st' = tasks st ++ [PcSleep FromGetTagData t4]
  /\ downloadStatus (shared st')
     = {| run := true; progress := Int 100; info := "更新完成";
          complete := true; error := false |}
  /\ loadLock (shared st') = false
  /\ lastCheckData (shared st')
     = {| old := sha'; oldLink := releaseLink';
          new := default "" (target_commitish info);
          newLink := html_url info; timestamp := t2;
          githubRelease := Some info |}
  /\ xhr_sends (effects_since (shared st) (shared st')) = [u]
  /\ In (DbUpdate response (html_url info))
        (effects_since (shared st) (shared st')).
Proof.
  intros Hl Hr Hv Ha Hf Hu Ht st'. destruct st as [sh tl].
  cbn [shared tasks] in Hl, Hr.
  set (d := {| old := sha; oldLink := releaseLink;
               new := default "" (target_commitish info);
               newLink := html_url info; timestamp := t2;
               githubRelease := Some info |}).
  set (sh1 := emit StorageGet
                (pushDownloadStatus
                   {| p_run := Some true; p_progress := None;
                      p_info := Some "加载中"; p_complete := None;
                      p_error := None |}
                   (badgeLoading_set "" "#4A90E2" (Some 2)
                      (set_loadLock true (initDownloadStatus sh))))).
  set (sh2 := emit (Fetch githubDownloadUrl) sh1).
  set (sh3 := start_transfer u (lastCheckData_next d sh2)).
  set (sh4 := emit (DbUpdate response (html_url info)) (xhr_onload sh3)).
  set (sh5 := fst (getTagDataEvent_updated FromGetTagData sha' releaseLink' t4 sh4)).
  assert (E : st' = {| shared := sh5; tasks := tl ++ [PcSleep FromGetTagData t4] |}).
  { subst st'. unfold update_run, exec. cbn [fold_left fst snd tasks].
    assert (S0 : step t0 MsgGetTagData {| shared := sh; tasks := tl |}
                 = {| shared := sh1;
                      tasks := tl ++ [PcDownloadCheck FromGetTagData AwaitStorage] |}).
    { unfold step. cbn [spawn shared tasks].
      now rewrite (start_acquires FromGetTagData t0 sh Hl Hr). }
    rewrite S0.
    rewrite (step_wake_last t1 (StorageDone (inr (sha, releaseLink))) tl
               (PcDownloadCheck FromGetTagData AwaitStorage) sh1 sh2
               (PcDownloadCheck FromGetTagData (AwaitFetch sha releaseLink))
               eq_refl).
    rewrite (step_wake_last t2 (FetchDone (inr (Some info))) tl
               (PcDownloadCheck FromGetTagData (AwaitFetch sha releaseLink))
               sh2 sh3 (PcTransfer FromGetTagData info)).
    2:{ cbn [resume checkVersion_resume checkVersion_fetched]. rewrite Hv.
        fold d. unfold getTagDataEvent_checked.
        now rewrite (download_continue_bundle d info l a u
                       (lastCheckData_next d sh2) eq_refl Ha Hf Hu Ht). }
    rewrite (step_wake_last t3 (XhrLoad response) tl
               (PcTransfer FromGetTagData info) sh3 sh4
               (PcDbUpdate FromGetTagData) eq_refl).
    apply step_wake_last. reflexivity. }
  rewrite E. cbn [shared tasks].
  assert (Eff : effects sh5
                = effects sh
                  ++ [ Broadcast defaultStatus;
                       BadgeSet "" "#4A90E2" (Some 2);
                       Broadcast {| run := true; progress := Int 0; info := "加载中";
                                    complete := false; error := false |};
                       StorageGet;
                       Fetch githubDownloadUrl;
                       XhrSend u;
                       Broadcast {| run := true; progress := Int 0; info := "0%";
                                    complete := false; error := false |};
                       BadgeSet "0" "#4A90E2" (Some 1);
                       Broadcast {| run := true; progress := Int 100;
                                    info := "下载完成";
                                    complete := false; error := false |};
                       BadgeSet "100" "#4A90E2" (Some 1);
                       DbUpdate response (html_url info);
                       BadgeSet "OK" "#00C801" None;
                       Broadcast {| run := true; progress := Int 100;
                                    info := "更新完成";
                                    complete := true; error := false |} ]).
  { cbn. rewrite <- !app_assoc. reflexivity. }
  split; [reflexivity|]. split; [reflexivity|]. split; [reflexivity|].
  split; [reflexivity|].
  rewrite (effects_since_app sh sh5 _ Eff).
  split; [reflexivity|]. cbn. tauto.
Qed.

Lemma update_carried_through_witness :
  let st' := exec (update_run initial 1000 1001 1002 1004 1005
                     "v1" "https://x/releases/v1" release_v2 []
                     "v2" "https://x/releases/v2") initial in
  xhr_sends (effects_since (shared initial) (shared st')) = ["https://x/db.gz"]
  /\ old (lastCheckData (shared st')) = "v2"
  /\ loadLock (shared st') = false.
Proof.
  intros st'.
  destruct (update_carried_through initial 1000 1001 1002 1004 1005
              "v1" "https://x/releases/v1" release_v2
              [ {| name := "db.html.json.gz";
                   browser_download_url := Some "https://x/db.gz" |} ]
              {| name := "db.html.json.gz";
                 browser_download_url := Some "https://x/db.gz" |}
              "https://x/db.gz" [] "v2" "https://x/releases/v2"
              eq_refl eq_refl eq_refl eq_refl eq_refl eq_refl eq_refl)
    as (_ & _ & H3 & H4 & H5 & _).
  fold st' in H3, H4, H5.
  split; [exact H5|]. split; [rewrite H4; reflexivity | exact H3].
Defined.

(** ** Leaving [download] *)

(** X13.  A task that is inside [download] leaves it in one of two ways.
    Either the promise settles (rejection at lines 122 or 130, load, or
    network error) and then [loadLock] is unset when the turn ends; or the
    awaited version check throws, and then the task is stuck at line 51 and
    nothing at all has changed, the set [loadLock] included. *)
Theorem leaving_download
    (time : Z) (s : Signal) (pc : Pc) (sh sh' : Shared) (pc' : Pc) :
  holder pc = true ->
  resume time s pc sh = Some (sh', pc') ->
  holder pc' = false ->
  (loadLock sh' = false /\ forall o, pc' <> PcAbandoned o)
  \/ (exists o, pc' = PcAbandoned o /\ origin_of pc = Some o /\ sh' = sh).
Proof.
  intros Hh Hr Hh'.
  destruct pc as [w | w | o w | o i | o | o | o since | r];
    try discriminate; cbn in Hr.
  - destruct (checkVersion_resume time s w sh) as [[e | sh1 w1 | sh1 d]|];
      simplify_eq.
    + right. eauto.
    + left. unfold getTagDataEvent_checked in Hr.
      destruct (download_continue d sh1) as [sh2 [err|info]] eqn:D.
      * apply download_continue_rejected in D as [-> _].
        unfold getTagDataEvent_catch in Hr. injection Hr as <- <-.
        split; [reflexivity | intros o0; destruct o; discriminate].
      * injection Hr as <- <-. discriminate.
  - left. destruct s; try discriminate.
    + injection Hr as <- <-. discriminate.
    + unfold getTagDataEvent_downloaded in Hr. injection Hr as <- <-.
      split; [reflexivity | discriminate].
    + unfold getTagDataEvent_catch in Hr. injection Hr as <- <-.
      split; [reflexivity | intros o0; destruct o; discriminate].
Qed.

Lemma leaving_download_witness :
  loadLock (xhr_onerror (shared contended)) = false
  /\ loadLock (shared contended) = true.
Proof.
  split; [|reflexivity].
  destruct (leaving_download 1003 XhrError
              (PcTransfer FromGetTagData release_v2) (shared contended)
              (fst (getTagDataEvent_catch FromGetTagData (Rejection None)
                      (xhr_onerror (shared contended))))
              (PcDone (Returned VUndefined)) eq_refl eq_refl eq_refl)
    as [[H _] | (o & Ho & _)]; [exact H | discriminate].
Defined.

(** ** An update served from the cached release *)

(** X14.  [download] honours the rate limit of [checkVersion]: when the
    guard is free and the cached release is at most 60,000 ms old, a
    request for an update asks neither the storage nor the feed.  It takes
    the bundle of the cached release and starts its transfer in the same
    turn. *)
Theorem update_uses_cached_release
    (time : Z) (st : State) (info : Release) (l : list Asset) (a : Asset)
    (u : string) :
  loadLock (shared st) = false ->
  time - timestamp (lastCheckData (shared st)) <= 60000 ->
  githubRelease (lastCheckData (shared st)) = Some info ->
  assets info = Some l ->
  find_asset l = Some a ->
  browser_download_url a = Some u ->
  truthy u = true ->
  let st' := step time MsgGetTagData st in
  tasks st' = tasks st ++ [PcTransfer FromGetTagData info]
  /\ loadLock (shared st') = true
  /\ lastCheckData (shared st') = lastCheckData (shared st)
  /\ effects_since (shared st) (shared st')
     = [ Broadcast defaultStatus;
         BadgeSet "" "#4A90E2" (Some 2);
         Broadcast {| run := true; progress := Int 0; info := "加载中";
                      complete := false; error := false |};
         XhrSend u;
         Broadcast {| run := true; progress := Int 0; info := "0%";
                      complete := false; error := false |};
         BadgeSet "0" "#4A90E2" (Some 1) ].
Proof.
  intros Hl Ht Hr Ha Hf Hu Htu st'. subst st'.
  destruct st as [sh tl]. cbn [shared tasks] in *.
  set (sh2 := pushDownloadStatus
                {| p_run := Some true; p_progress := None; p_info := Some "加载中";
                   p_complete := None; p_error := None |}
                (badgeLoading_set "" "#4A90E2" (Some 2)
                   (set_loadLock true (initDownloadStatus sh)))).
  assert (E : getTagDataEvent_start FromGetTagData time sh
              = (start_transfer u sh2, PcTransfer FromGetTagData info)).
  { unfold getTagDataEvent_start, download_acquire.
    change (loadLock (initDownloadStatus sh)) with (loadLock sh). rewrite Hl.
    fold sh2. unfold checkVersion_start, rate_limited. cbn [negb andb].
    change (lastCheckData sh2) with (lastCheckData sh).
    rewrite bool_decide_eq_true_2 by (rewrite Hr; eauto).
    destruct (Z.leb_spec (time - timestamp (lastCheckData sh)) (1000 * 60));
      [|lia].
    cbn [andb]. unfold getTagDataEvent_checked.
    now rewrite (download_continue_bundle (lastCheckData sh) info l a u sh2
                   Hr Ha Hf Hu Htu). }
  unfold step. cbn [spawn shared tasks]. rewrite E. cbn [shared tasks].
  split; [reflexivity|]. split; [reflexivity|]. split; [reflexivity|].
  apply effects_since_app. cbn. rewrite <- !app_assoc. reflexivity.
Qed.

Lemma update_uses_cached_release_witness :
  let st := exec (successful_update ++ [ (3505, Wake 0 TimerFired) ]) initial in
  xhr_sends (effects_since (shared st) (shared (step 4000 MsgGetTagData st)))
  = ["https://x/db.gz"].
Proof.
  intros st.
  destruct (update_uses_cached_release 4000 st release_v2
              [ {| name := "db.html.json.gz";
                   browser_download_url := Some "https://x/db.gz" |} ]
              {| name := "db.html.json.gz";
                 browser_download_url := Some "https://x/db.gz" |}
              "https://x/db.gz" eq_refl)
    as (_ & _ & _ & H);
    [vm_compute; discriminate | reflexivity | reflexivity | reflexivity
    | reflexivity | reflexivity |].
  rewrite H. reflexivity.
Defined.
